(** * productosweb: the scraping pipeline of [web.py]

    A shallow embedding of [web.py] (class [WebScraperGUI] and its
    [DatabaseConnection]) and the properties of its registration and
    scraping paths.

    Modelling conventions.
    - A Python [str] is a [string]; each character is read as a code point
      below 256.
    - The SQLite file is a record of its two tables; a table is the list of
      its rows in rowid order, and [AUTOINCREMENT] draws the next rowid from
      the table and its [sqlite_sequence] entry.
    - The widgets the methods touch are fields of [App]: the two entries,
      the [Treeview] (the list of the [(url, selector)] pairs inserted
      into it) and the results [Text] (a string).  Reading an entry back
      with [item(...)['values']] passes each value through
      [ttk._convert_stringval], which returns an [int] for text that
      [int()] accepts and the text itself otherwise.
    - [requests], [BeautifulSoup] and the wall clock are not part of the
      repository: they are the fields of a [World] and a [Clock] that the
      methods receive.  A [World] also says where, if anywhere, [sqlite3]
      raises during a run.
    - [CURRENT_TIMESTAMP] is read from the [Clock] at the id of the row
      being inserted; a [SELECT] without [ORDER BY] returns the rows in
      rowid order.
    - The worker started by [start_scraping] is run to completion before
      the next user action. *)

From Stdlib Require Import String Ascii List Arith Bool Lia PeanoNat Sorted.
From Stdlib Require Import ZArith DecimalString.
Import ListNotations.
Local Open Scope string_scope.
Local Open Scope list_scope.
Local Open Scope nat_scope.

Set Implicit Arguments.
Set Warnings "-register-all".

(** ** Python strings *)

Module Py.

(** [str.isspace] on one character, for code points below 256. *)
Definition isspace (c : ascii) : bool :=
  let n := nat_of_ascii c in
  ((9 <=? n) && (n <=? 13)) || ((28 <=? n) && (n <=? 32))
  || (n =? 133) || (n =? 160).

(** [str.lstrip()], [str.rstrip()] and [str.strip()] without argument. *)
Fixpoint lstrip (s : string) : string :=
  match s with
  | EmptyString => EmptyString
  | String c s' => if isspace c then lstrip s' else s
  end.

Fixpoint rstrip (s : string) : string :=
  match s with
  | EmptyString => EmptyString
  | String c s' =>
      match rstrip s' with
      | EmptyString => if isspace c then EmptyString else String c EmptyString
      | r => String c r
      end
  end.

Definition strip (s : string) : string := rstrip (lstrip s).

(** Truth value of a [str]: only the empty string is false. *)
Definition truthy (s : string) : bool :=
  match s with
  | EmptyString => false
  | String _ _ => true
  end.

(** Every character of [s] is whitespace ([s] may be empty). *)
Fixpoint all_space (s : string) : bool :=
  match s with
  | EmptyString => true
  | String c s' => isspace c && all_space s'
  end.

Definition first_char (s : string) : option ascii :=
  match s with
  | EmptyString => None
  | String c _ => Some c
  end.

Fixpoint last_char (s : string) : option ascii :=
  match s with
  | EmptyString => None
  | String c EmptyString => Some c
  | String _ s' => last_char s'
  end.

(** A value that is a [str] or an [int]. *)
Inductive value : Type :=
| Str (s : string)
| Int (n : Z).

(** [str(v)]: the text itself, or the decimal digits of the integer
    with a leading [-] when it is negative. *)
Definition str (v : value) : string :=
  match v with
  | Str s => s
  | Int n => NilZero.string_of_int (Z.to_int n)
  end.

(** The characters [int()] skips around a number, for code points below
    256. *)
Definition int_isspace (c : ascii) : bool :=
  let n := nat_of_ascii c in
  ((9 <=? n) && (n <=? 13)) || (n =? 32) || (n =? 133) || (n =? 160).

Definition digit_value (c : ascii) : option Z :=
  let n := nat_of_ascii c in
  if (48 <=? n) && (n <=? 57) then Some (Z.of_nat (n - 48)) else None.

Fixpoint int_lstrip (s : string) : string :=
  match s with
  | EmptyString => EmptyString
  | String c s' => if int_isspace c then int_lstrip s' else s
  end.

Fixpoint int_all_space (s : string) : bool :=
  match s with
  | EmptyString => true
  | String c s' => int_isspace c && int_all_space s'
  end.

(** The digits of a decimal literal, with single underscores allowed
    between digits: the value read, the number of digits and what
    follows them. *)
Fixpoint scan_digits (s : string) (prev_underscore : bool) (acc : Z)
  (digits : nat) : option (Z * nat * string) :=
  match s with
  | EmptyString =>
      if prev_underscore then None else Some (acc, digits, EmptyString)
  | String c s' =>
      if Ascii.eqb c "_" then
        if prev_underscore then None else scan_digits s' true acc digits
      else
        match digit_value c with
        | Some d => scan_digits s' false (10 * acc + d)%Z (S digits)
        | None => if prev_underscore then None else Some (acc, digits, s)
        end
  end.

(** [int(s)] for a [str]: [None] stands for [ValueError].  Whitespace
    around the number is skipped, one sign may precede the digits, and a
    literal of more than [max_str_digits] digits is refused when that
    limit is set (0 means no limit) and the literal has more than 640
    digits. *)
Definition int (max_str_digits : nat) (s : string) : option Z :=
  let s1 := int_lstrip s in
  let '(negative, s2) :=
    match s1 with
    | String "+" r => (false, r)
    | String "-" r => (true, r)
    | _ => (false, s1)
    end in
  match s2 with
  | String "_" _ => None
  | _ =>
      match scan_digits s2 false 0%Z 0 with
      | None => None
      | Some (n, digits, rest) =>
          if (digits =? 0) || negb (int_all_space rest)
             || ((640 <? digits) && (0 <? max_str_digits)
                 && (max_str_digits <? digits))
          then None
          else Some (if negative then (- n)%Z else n)
      end
  end.

(** An exception object: its class and [str(e)]. *)
Record Exception : Type := mkException {
  exc_class : string;
  exc_str : string
}.

(** The result of an expression that may raise. *)
Definition raising (A : Type) : Type := (Exception + A)%type.

Definition ret {A} (a : A) : raising A := inr a.

Definition bind {A B} (m : raising A) (k : A -> raising B) : raising B :=
  match m with
  | inl e => inl e
  | inr a => k a
  end.

End Py.

Notation "x <- m ;; k" := (Py.bind m (fun x => k))
  (at level 61, m at next level, right associativity).

(** ** The parsed document *)

(** A node of the tree [BeautifulSoup] builds: a string or a tag with its
    attributes and children. *)
Inductive PageElement : Type :=
| NavigableString (s : string)
| Tag (name : string) (attrs : list (string * string))
      (contents : list PageElement).

(** The [.text] property: all strings below the node, concatenated in
    document order. *)
Fixpoint text (e : PageElement) : string :=
  match e with
  | NavigableString s => s
  | Tag _ _ cs =>
      (fix join (l : list PageElement) : string :=
         match l with
         | [] => EmptyString
         | c :: l' => (text c ++ join l')%string
         end) cs
  end.

(** The element itself followed by everything below it, in document
    order. *)
Fixpoint self_and_descendants (e : PageElement) : list PageElement :=
  e :: match e with
       | NavigableString _ => []
       | Tag _ _ cs =>
           (fix walk (l : list PageElement) : list PageElement :=
              match l with
              | [] => []
              | c :: l' => self_and_descendants c ++ walk l'
              end) cs
       end.

Definition descendants (e : PageElement) : list PageElement :=
  tl (self_and_descendants e).

(** ** The world outside the repository *)

(** Where [sqlite3] raises inside one [with DatabaseConnection()] block of
    the worker. *)
Inductive Fault : Type :=
| FaultConnect            (* opening the connection *)
| FaultInsert (k : nat)   (* the INSERT of fragment number [k] *)
| FaultCommit.            (* the final commit *)

Record World : Type := mkWorld {
  (** [requests.get(url, timeout=10).text] for the request of the
      snapshot entry at the given position. *)
  requests_get : nat -> string -> Py.raising string;
  (** [BeautifulSoup(markup, 'html.parser')]. *)
  BeautifulSoup : string -> Py.raising PageElement;
  (** [soup.select(selector)]. *)
  select : PageElement -> string -> Py.raising (list PageElement);
  (** The fault, if any, of the database block of the entry at the given
      position. *)
  db_fault : nat -> option Fault;
  (** [sys.get_int_max_str_digits()]. *)
  int_max_str_digits : nat;
  (** What [soup.select(n)] raises for an [int]. *)
  select_int : Z -> Py.Exception
}.

(** [CURRENT_TIMESTAMP], in seconds, as SQLite evaluates it when the
    [results] row that receives the given id is inserted. *)
Definition Clock : Type := nat -> nat.

(** ** [scrape_url] *)

Definition error_fragment (e : Py.Exception) : string :=
  ("Error: " ++ Py.exc_str e)%string.

Definition scrape_url (w : World) (i : nat) (url selector : string)
  : list string :=
  match
    (response <- requests_get w i url ;;
     soup <- BeautifulSoup w response ;;
     results <- select w soup selector ;;
     Py.ret (map (fun result => Py.strip (text result)) results))
  with
  | inr fragments => fragments
  | inl e => [error_fragment e]
  end.

(** [ttk._convert_stringval]: the value is turned into text and then
    into an [int] when [int()] accepts it. *)
Definition convert_stringval (w : World) (s : string) : Py.value :=
  match Py.int (int_max_str_digits w) s with
  | Some n => Py.Int n
  | None => Py.Str s
  end.

(** [self.url_list.item(item)['values']]: the pair stored for the entry,
    each value converted. *)
Definition item_values (w : World) (item : string * string)
  : Py.value * Py.value :=
  (convert_stringval w (fst item), convert_stringval w (snd item)).

(** [soup.select(selector)] for a value read from the list. *)
Definition select_value (w : World) (soup : PageElement)
  (selector : Py.value) : Py.raising (list PageElement) :=
  match selector with
  | Py.Str s => select w soup s
  | Py.Int n => inl (select_int w n)
  end.

(** [scrape_url] as the worker calls it, on values read from the list:
    [requests] takes the text of the url. *)
Definition scrape_url_values (w : World) (i : nat)
  (url selector : Py.value) : list string :=
  match
    (response <- requests_get w i (Py.str url) ;;
     soup <- BeautifulSoup w response ;;
     results <- select_value w soup selector ;;
     Py.ret (map (fun result => Py.strip (text result)) results))
  with
  | inr fragments => fragments
  | inl e => [error_fragment e]
  end.

(** ** The database *)

(** A row of [urls (id, url, selector)]. *)
Record UrlRow : Type := mkUrlRow {
  urls_id : nat;
  urls_url : string;
  urls_selector : string
}.

(** A row of [results (id, url_id, result, timestamp)]. *)
Record ResultRow : Type := mkResultRow {
  results_id : nat;
  results_url_id : nat;
  results_result : string;
  results_timestamp : nat
}.

(** The two tables, rows in rowid order, and their [sqlite_sequence]
    entries. *)
Record Database : Type := mkDatabase {
  urls : list UrlRow;
  urls_seq : nat;
  results : list ResultRow;
  results_seq : nat
}.

(** [INTEGER PRIMARY KEY AUTOINCREMENT]: one more than the largest rowid
    the table holds or has ever held. *)
Definition next_rowid (ids : list nat) (seq : nat) : nat :=
  S (Nat.max seq (list_max ids)).

(** [create_database]: the tables are created only if they do not exist. *)
Definition create_database (file : option Database) : Database :=
  match file with
  | Some d => d
  | None => mkDatabase [] 0 [] 0
  end.

(** [INSERT INTO urls (url, selector) VALUES (?, ?)]. *)
Definition insert_url (d : Database) (url selector : string) : Database :=
  let id := next_rowid (map urls_id (urls d)) (urls_seq d) in
  mkDatabase (urls d ++ [mkUrlRow id url selector]) id
             (results d) (results_seq d).

(** [SELECT url, selector FROM urls]. *)
Definition select_url_selector (d : Database) : list (string * string) :=
  map (fun r => (urls_url r, urls_selector r)) (urls d).

(** [SELECT id FROM urls WHERE url=?] followed by [fetchone()]: the first
    matching row, or [None]. *)
Definition select_id_fetchone (d : Database) (url : string) : option nat :=
  match filter (fun r => String.eqb (urls_url r) url) (urls d) with
  | [] => None
  | r :: _ => Some (urls_id r)
  end.

(** [INSERT INTO results (url_id, result) VALUES (?, ?)]; the timestamp
    column takes its default. *)
Definition insert_result (clock : Clock) (d : Database)
  (url_id : nat) (result : string) : Database :=
  let id := next_rowid (map results_id (results d)) (results_seq d) in
  mkDatabase (urls d) (urls_seq d)
             (results d ++ [mkResultRow id url_id result (clock id)]) id.

(** ** The application *)

Record App : Type := mkApp {
  db : Database;
  url_entry : string;
  selector_entry : string;
  url_list : list (string * string);
  results_text : string
}.

(** [load_urls]: every stored pair is appended to the [Treeview]. *)
Definition load_urls (st : App) : App :=
  mkApp (db st) (url_entry st) (selector_entry st)
        (url_list st ++ select_url_selector (db st))
        (results_text st).

(** [__init__]: the database is created if needed, the widgets start
    empty and the stored pairs are loaded. *)
Definition init (file : option Database) : App :=
  load_urls (mkApp (create_database file) EmptyString EmptyString []
                   EmptyString).

(** The user types into the two entries. *)
Definition type_entries (url selector : string) (st : App) : App :=
  mkApp (db st) url selector (url_list st) (results_text st).

Inductive AddOutcome : Type :=
| Added
| ShowError (title message : string)
| AddRaised (e : Py.Exception).

Definition OperationalError : Py.Exception :=
  Py.mkException "sqlite3.OperationalError" "unable to open database file".

(** [add_url].  [fault] says whether [sqlite3] raises inside the [with]
    block; the exception then leaves the method before the widgets are
    touched. *)
Definition add_url (fault : bool) (st : App) : App * AddOutcome :=
  let url := url_entry st in
  let selector := selector_entry st in
  if Py.truthy url && Py.truthy selector then
    if fault then (st, AddRaised OperationalError)
    else
      (mkApp (insert_url (db st) url selector) EmptyString EmptyString
             (url_list st ++ [(url, selector)]) (results_text st),
       Added)
  else
    (st, ShowError "Error" "Por favor ingrese URL y selector CSS").

(** The registration operation as a caller sees it: fill the entries and
    press the button. *)
Definition add (fault : bool) (url selector : string) (st : App)
  : App * AddOutcome :=
  add_url fault (type_entries url selector st).

(** ** The worker *)

Definition newline : string := String (ascii_of_nat 10) EmptyString.

(** The text inserted into the results widget for one fragment. *)
Definition result_entry (url result : string) : string :=
  ("URL: " ++ url ++ newline ++ "Resultado: " ++ result
   ++ newline ++ newline)%string.

Definition TypeError : Py.Exception :=
  Py.mkException "TypeError" "'NoneType' object is not subscriptable".

Definition OverflowError : Py.Exception :=
  Py.mkException "OverflowError"
                 "Python int too large to convert to SQLite INTEGER".

(** Binding the url to the [?] of the SELECT: text is compared as it is,
    an integer that fits 64 bits is compared through its decimal text
    (the column has TEXT affinity), and a larger one is refused by
    [sqlite3]. *)
Definition sqlite_bind (url : Py.value) : Py.raising string :=
  match url with
  | Py.Str s => inr s
  | Py.Int n =>
      if ((- 2 ^ 63 <=? n) && (n <? 2 ^ 63))%Z
      then inr (Py.str url)
      else inl OverflowError
  end.

(** The id lookup of the worker for a list entry whose stored url is
    [url]: the entry is read back, bound and looked up. *)
Definition job_id (w : World) (d : Database) (url : string)
  : Py.raising (option nat) :=
  key <- sqlite_bind (convert_stringval w url) ;;
  Py.ret (select_id_fetchone d key).

Inductive Outcome : Type :=
| Finished
| Uncaught (e : Py.Exception).

(** The inner [for result in results] loop of one database block: each
    fragment is inserted and shown.  [fault] is the position of the INSERT
    that raises, if any; the second component says whether it was
    reached. *)
Fixpoint insert_results (clock : Clock) (fault : option nat)
  (url : string) (url_id : nat) (k : nat) (fragments : list string)
  (d : Database) (shown : string) : Database * string * bool :=
  match fragments with
  | [] => (d, shown, false)
  | result :: rest =>
      if match fault with Some f => f =? k | None => false end
      then (d, shown, true)
      else insert_results clock fault url url_id (S k) rest
             (insert_result clock d url_id result)
             (shown ++ result_entry url result)%string
  end.

Definition insert_fault (f : option Fault) : option nat :=
  match f with
  | Some (FaultInsert k) => Some k
  | _ => None
  end.

(** The body of the [for item in ...] loop for the entry at position [i].
    A block that does not reach its commit leaves the database as it was:
    closing the connection drops the open transaction. *)
Definition scrape_item (clock : Clock) (w : World) (i : nat)
  (item : string * string) (st : App) : App * Outcome :=
  let '(url, selector) := item_values w item in
  let fragments := scrape_url_values w i url selector in
  let show (s : string) :=
    mkApp (db st) (url_entry st) (selector_entry st) (url_list st) s in
  match db_fault w i with
  | Some FaultConnect => (st, Uncaught OperationalError)
  | f =>
      match sqlite_bind url with
      | inl e => (st, Uncaught e)
      | inr key =>
          match select_id_fetchone (db st) key with
          | None => (st, Uncaught TypeError)
          | Some url_id =>
              let '(d, shown, raised) :=
                insert_results clock (insert_fault f) (Py.str url) url_id 0
                               fragments (db st) (results_text st) in
              if raised then (show shown, Uncaught OperationalError)
              else
                match f with
                | Some FaultCommit =>
                    (show shown, Uncaught OperationalError)
                | _ =>
                    (mkApp d (url_entry st) (selector_entry st)
                           (url_list st) shown,
                     Finished)
                end
          end
      end
  end.

(** The [for item in self.url_list.get_children()] loop over the
    snapshot taken when it starts; an uncaught exception ends it. *)
Fixpoint scrape_loop (clock : Clock) (w : World) (i : nat)
  (items : list (string * string)) (st : App) : App * Outcome :=
  match items with
  | [] => (st, Finished)
  | item :: rest =>
      match scrape_item clock w i item st with
      | (st', Finished) => scrape_loop clock w (S i) rest st'
      | (st', Uncaught e) => (st', Uncaught e)
      end
  end.

(** [scrape_thread]: the results widget is cleared, then every entry of
    the list is processed. *)
Definition results_text_clear (st : App) : App :=
  mkApp (db st) (url_entry st) (selector_entry st) (url_list st) EmptyString.

Definition scrape_thread (clock : Clock) (w : World) (st : App)
  : App * Outcome :=
  let st0 := results_text_clear st in
  scrape_loop clock w 0 (url_list st0) st0.

(** A thread is the function it runs on the application state. *)
Definition Thread : Type := App -> App * Outcome.

(** [start_scraping]: the threads it starts. *)
Definition start_scraping (clock : Clock) (w : World) : list Thread :=
  [scrape_thread clock w].

(** * Vocabulary of the statements *)

(** The three ways the [try] block of [scrape_url] can raise. *)
Inductive stage_fails (w : World) (i : nat) (url selector : string)
  (e : Py.Exception) : Prop :=
| fetch_fails :
    requests_get w i url = inl e -> stage_fails w i url selector e
| parse_fails body :
    requests_get w i url = inr body ->
    BeautifulSoup w body = inl e -> stage_fails w i url selector e
| select_fails body soup :
    requests_get w i url = inr body ->
    BeautifulSoup w body = inr soup ->
    select w soup selector = inl e -> stage_fails w i url selector e.

(** The [try] block reaches its [return] with the matched elements. *)
Definition matched (w : World) (i : nat) (url selector : string)
  (elements : list PageElement) : Prop :=
  exists body soup,
    requests_get w i url = inr body
    /\ BeautifulSoup w body = inr soup
    /\ select w soup selector = inr elements.

(** What a row says, apart from its id and timestamp. *)
Definition record_of (r : ResultRow) : nat * string :=
  (results_url_id r, results_result r).

(** The inserts of one database block when nothing raises. *)
Definition append_results (clock : Clock) (d : Database) (url_id : nat)
  (fragments : list string) : Database :=
  fold_left (fun d' result => insert_result clock d' url_id result)
            fragments d.

Fixpoint show_results (url : string) (fragments : list string) : string :=
  match fragments with
  | [] => EmptyString
  | result :: rest => (result_entry url result ++ show_results url rest)%string
  end.

(** [rows] were appended after [old]: every row is stamped by the clock at
    its own id, its id is above every id of [old], and the ids grow along
    [rows]. *)
Definition appended (clock : Clock) (old rows : list ResultRow) : Prop :=
  (forall r, In r rows -> results_timestamp r = clock (results_id r))
  /\ (forall r0 r, In r0 old -> In r rows -> results_id r0 < results_id r)
  /\ StronglySorted (fun a b => results_id a < results_id b) rows.

(** The position of an INSERT fault falls among the fragments numbered
    [k], [k+1], ... *)
Definition fault_reached (fault : option nat) (k len : nat) : bool :=
  match fault with
  | Some f => (k <=? f) && (f <? k + len)
  | None => false
  end.

(** The fragments inserted before that fault, or all of them. *)
Definition inserted_before (fault : option nat) (k : nat)
  (fragments : list string) : list string :=
  match fault with
  | Some f =>
      if (k <=? f) && (f <? k + length fragments)
      then firstn (f - k) fragments
      else fragments
  | None => fragments
  end.

(** Whether the database block of an entry with [n] fragments raises, and
    after how many fragments were shown. *)
Definition raises_after (f : option Fault) (n : nat) : option nat :=
  match f with
  | Some FaultConnect => Some 0
  | Some (FaultInsert k) => if k <? n then Some k else None
  | Some FaultCommit => Some n
  | None => None
  end.

Definition with_db_text (st : App) (d : Database) (s : string) : App :=
  mkApp d (url_entry st) (selector_entry st) (url_list st) s.

(** The registry and the entry widgets are the same in both states. *)
Definition same_registry (st st' : App) : Prop :=
  urls (db st') = urls (db st)
  /\ urls_seq (db st') = urls_seq (db st)
  /\ url_list st' = url_list st
  /\ url_entry st' = url_entry st
  /\ selector_entry st' = selector_entry st.

(** [st'] keeps every [results] row of [st], in place, and adds rows
    after them. *)
Definition extends_results (clock : Clock) (st st' : App)
  (rows : list ResultRow) : Prop :=
  results (db st') = results (db st) ++ rows
  /\ appended clock (results (db st)) rows.

(** The fragments the worker gets for the list entry [item] at position
    [i]: the entry is read back and scraped. *)
Definition item_fragments (w : World) (i : nat) (item : string * string)
  : list string :=
  scrape_url_values w i (fst (item_values w item)) (snd (item_values w item)).

(** The url of the entry as the worker requests and shows it. *)
Definition item_url (w : World) (item : string * string) : string :=
  Py.str (fst (item_values w item)).

(** The stored text is read back as it is: [int()] refuses it. *)
Definition reads_as_stored (w : World) (s : string) : Prop :=
  Py.int (int_max_str_digits w) s = None.

(** The [(url_id, result)] pairs a run without database faults writes for
    the entries [items], the first of them at position [i]. *)
Fixpoint expected_records (d : Database) (w : World) (i : nat)
  (items : list (string * string)) : list (nat * string) :=
  match items with
  | [] => []
  | item :: rest =>
      match job_id w d (fst item) with
      | inr (Some url_id) => map (pair url_id) (item_fragments w i item)
      | _ => []
      end ++ expected_records d w (S i) rest
  end.

(** The text such a run shows. *)
Fixpoint shown_text (w : World) (i : nat)
  (items : list (string * string)) : string :=
  match items with
  | [] => EmptyString
  | item :: rest =>
      (show_results (item_url w item) (item_fragments w i item)
       ++ shown_text w (S i) rest)%string
  end.

(** Every entry's url, as the worker reads it back, is found in the
    [urls] table. *)
Definition resolvable (w : World) (d : Database)
  (items : list (string * string)) : Prop :=
  forall url selector,
    In (url, selector) items ->
    exists url_id, job_id w d url = inr (Some url_id).

(** No database block of the positions [i], ..., [i + n - 1] raises. *)
Definition no_fault_in (w : World) (i n : nat) : Prop :=
  forall k, i <= k < i + n -> db_fault w k = None.

(** The [Treeview] lists exactly the stored pairs, in table order. *)
Definition mirrors (st : App) : Prop :=
  url_list st = select_url_selector (db st).

(** A user action: pressing one of the two buttons.  Pressing the first
    comes with what the entries hold and with whether the database block
    raises; pressing the second comes with the world its worker meets. *)
Inductive Action : Type :=
| ClickAdd (fault : bool) (url selector : string)
| ClickStart (w : World).

(** Every thread in the list runs to completion, in turn. *)
Definition run_threads (threads : list Thread) (st : App) : App :=
  fold_left (fun st' (t : Thread) => fst (t st')) threads st.

Definition perform (clock : Clock) (a : Action) (st : App) : App :=
  match a with
  | ClickAdd fault url selector => fst (add fault url selector st)
  | ClickStart w => run_threads (start_scraping clock w) st
  end.

Definition perform_all (clock : Clock) (actions : list Action) (st : App)
  : App :=
  fold_left (fun st' a => perform clock a st') actions st.

(** The pairs of the registrations that answered [Added], in the order
    they were made. *)
Fixpoint successfully_added (clock : Clock) (actions : list Action)
  (st : App) : list (string * string) :=
  match actions with
  | [] => []
  | a :: rest =>
      match a with
      | ClickAdd fault url selector =>
          match snd (add fault url selector st) with
          | Added => [(url, selector)]
          | _ => []
          end
      | ClickStart _ => []
      end ++ successfully_added clock rest (perform clock a st)
  end.

(** ** A small world to run the program in *)

Module Example.

Definition dquote : string := String (ascii_of_nat 34) EmptyString.

(** The page [<div class="item">A</div><div class="item"> B </div>]. *)
Definition markup : string :=
  ("<div class=" ++ dquote ++ "item" ++ dquote ++ ">A</div>"
   ++ "<div class=" ++ dquote ++ "item" ++ dquote ++ "> B </div>")%string.

Definition item (s : string) : PageElement :=
  Tag "div" [("class", "item")] [NavigableString s].

Definition soup : PageElement :=
  Tag "[document]" [] [item "A"; item " B "].

Definition page_url : string := "http://shop.test/items".

(** The page [<p class="name">Tea</p><p class="price">10</p>]. *)
Definition tea_markup : string :=
  ("<p class=" ++ dquote ++ "name" ++ dquote ++ ">Tea</p>"
   ++ "<p class=" ++ dquote ++ "price" ++ dquote ++ ">10</p>")%string.

Definition tea_soup : PageElement :=
  Tag "[document]" []
      [Tag "p" [("class", "name")] [NavigableString "Tea"];
       Tag "p" [("class", "price")] [NavigableString "10"]].

Definition tea_url : string := "http://shop.test/tea".

Definition timed_out : Py.Exception :=
  Py.mkException "requests.exceptions.ConnectTimeout"
                 "connection timed out".

Definition invalid_selector : Py.Exception :=
  Py.mkException "soupsieve.util.SelectorSyntaxError"
                 "invalid selector".

Definition not_a_selector : Py.Exception :=
  Py.mkException "AttributeError"
                 "'int' object has no attribute 'replace'".

Definition has_class (cls : string) (e : PageElement) : bool :=
  match e with
  | NavigableString _ => false
  | Tag _ attrs _ =>
      existsb (fun a => String.eqb (fst a) "class" && String.eqb (snd a) cls)
              attrs
  end.

(** Class selectors only: [.cls] picks, in document order, the tags below
    the root that carry the class; anything else is refused. *)
Definition select_class (root : PageElement) (selector : string)
  : Py.raising (list PageElement) :=
  match selector with
  | String "." cls => inr (filter (has_class cls) (descendants root))
  | _ => inl invalid_selector
  end.

(** Two pages are reachable, every other request times out; the parser
    knows the two pages and reads anything else as plain text. *)
Definition world : World :=
  mkWorld
    (fun _ url =>
       if String.eqb url page_url then inr markup
       else if String.eqb url tea_url then inr tea_markup
       else inl timed_out)
    (fun m =>
       if String.eqb m markup then inr soup
       else if String.eqb m tea_markup then inr tea_soup
       else inr (Tag "[document]" [] [NavigableString m]))
    select_class
    (fun _ => None)
    4300
    (fun _ => not_a_selector).

(** The same world with a database that fails on the block of the entry
    at position [n]. *)
Definition world_with_fault (n : nat) (f : Fault) : World :=
  mkWorld (requests_get world) (BeautifulSoup world) (select world)
          (fun k => if k =? n then Some f else None)
          (int_max_str_digits world) (select_int world).


(** One second per inserted row. *)
Definition ticking : Clock := fun id => id.

End Example.

(** [t] is [s] without its leading and trailing whitespace. *)
Definition trimmed (s t : string) : Prop :=
  exists l r,
    s = (l ++ t ++ r)%string
    /\ Py.all_space l = true /\ Py.all_space r = true
    /\ (forall c, Py.first_char t = Some c -> Py.isspace c = false)
    /\ (forall c, Py.last_char t = Some c -> Py.isspace c = false).

(** Every fragment of the entries [items], in the order a run meets
    them. *)
Fixpoint all_fragments (w : World) (i : nat)
  (items : list (string * string)) : list string :=
  match items with
  | [] => []
  | item :: rest =>
      item_fragments w i item ++ all_fragments w (S i) rest
  end.

(** Two jobs that share a url. *)
Module SameUrl.

(** Two jobs on the tea page: names under id 1, prices under id 2. *)
Definition tea_jobs : App :=
  fst (add false Example.tea_url ".price"
         (fst (add false Example.tea_url ".name" (init None)))).

Definition down_url : string := "http://down.test/".

(** Two jobs on a host that does not answer. *)
Definition down_jobs : App :=
  fst (add false down_url ".b" (fst (add false down_url ".a" (init None)))).

End SameUrl.


(** A job whose url is made of digits. *)
Module Numeric.

(** One job, registered under the url [007]. *)
Definition st : App := fst (add false "007" ".item" (init None)).

(** Two jobs: [007] with id 1 and [7] with id 2. *)
Definition two : App := fst (add false "7" ".item" st).

End Numeric.

(** A list that no longer mirrors the table. *)
Module Orphan.

(** A list entry whose row is no longer in the table, between two that
    still have theirs. *)
Definition st : App :=
  mkApp (mkDatabase [mkUrlRow 1 Example.page_url ".item"] 2 [] 0)
        EmptyString EmptyString
        [(Example.page_url, ".item");
         ("http://gone.test/", ".x");
         (Example.page_url, ".item")]
        EmptyString.

End Orphan.

(** ** Invariants of the database *)

(** The ids [ids] of a table and its sequence entry [seq_] count up from
    1 without a gap. *)
Definition counted (ids : list nat) (seq_ : nat) : Prop :=
  ids = seq 1 (length ids) /\ seq_ = length ids.

(** Every [results] row points at a row of [urls]. *)
Definition referential (d : Database) : Prop :=
  forall r, In r (results d) ->
            In (results_url_id r) (map urls_id (urls d)).

(** [SELECT url FROM urls WHERE id=?] followed by [fetchone()]: the url
    of the job a stored row points at. *)
Definition url_of_id (d : Database) (id : nat) : option string :=
  option_map urls_url (find (fun r => urls_id r =? id) (urls d)).

(** The results text rebuilt from stored [(url_id, result)] pairs: for
    each pair the line [URL: ] with the url of its job, the line
    [Resultado: ] with the result, and an empty line. *)
Fixpoint show_records (d : Database) (records : list (nat * string))
  : string :=
  match records with
  | [] => EmptyString
  | (id, result) :: rest =>
      (match url_of_id d id with
       | Some url =>
           "URL: " ++ url ++ String (ascii_of_nat 10) EmptyString
           ++ "Resultado: " ++ result
           ++ String (ascii_of_nat 10) (String (ascii_of_nat 10) EmptyString)
       | None => EmptyString
       end ++ show_records d rest)%string
  end.

(** A page whose only match holds nothing but whitespace. *)
Module Blank.

Definition element : PageElement :=
  Tag "div" [("class", "item")]
      [NavigableString "  "; Tag "br" [] []; NavigableString " "].

Definition world : World :=
  mkWorld (fun _ _ => inr "page")
          (fun _ => inr (Tag "[document]" [] [element]))
          (fun _ _ => inr [element])
          (fun _ => None)
          4300
          (fun _ => Example.not_a_selector).

End Blank.

(** * Properties *)

(** ** String concatenation *)

Lemma string_app_nil_r (s : string) : (s ++ EmptyString)%string = s.
Proof. induction s as [|c s IH]; simpl; [|rewrite IH]; reflexivity. Qed.

Lemma string_app_assoc (s t u : string) :
  ((s ++ t) ++ u)%string = (s ++ (t ++ u))%string.
Proof. induction s as [|c s IH]; simpl; [|rewrite IH]; reflexivity. Qed.

(** ** Trimming *)

Lemma lstrip_split (s : string) :
  exists l, s = (l ++ Py.lstrip s)%string /\ Py.all_space l = true.
Proof.
  induction s as [|c s IH]; simpl.
  - exists EmptyString. split; reflexivity.
  - destruct (Py.isspace c) eqn:Hc.
    + destruct IH as [l [Hs Hl]].
      exists (String c l). simpl. rewrite Hc, Hl. split; [|reflexivity].
      now rewrite <- Hs.
    + exists EmptyString. split; reflexivity.
Qed.

Lemma lstrip_first (s : string) (c : ascii) :
  Py.first_char (Py.lstrip s) = Some c -> Py.isspace c = false.
Proof.
  induction s as [|a s IH]; simpl; [discriminate|].
  destruct (Py.isspace a) eqn:Ha; [exact IH|].
  simpl. intros E. injection E as <-. exact Ha.
Qed.

Lemma rstrip_split (s : string) :
  exists r, s = (Py.rstrip s ++ r)%string /\ Py.all_space r = true.
Proof.
  induction s as [|c s IH]; simpl.
  - exists EmptyString. split; reflexivity.
  - destruct IH as [r [Hs Hr]].
    destruct (Py.rstrip s) as [|a t] eqn:Et.
    + destruct (Py.isspace c) eqn:Hc.
      * exists (String c r). simpl. rewrite Hc, Hr.
        split; [f_equal; exact Hs | reflexivity].
      * exists r. simpl. split; [f_equal; exact Hs | exact Hr].
    + exists r. split; [|exact Hr]. simpl. f_equal. exact Hs.
Qed.

Lemma rstrip_last (s : string) (c : ascii) :
  Py.last_char (Py.rstrip s) = Some c -> Py.isspace c = false.
Proof.
  induction s as [|a s IH]; simpl; [discriminate|].
  destruct (Py.rstrip s) as [|b t] eqn:Et.
  - destruct (Py.isspace a) eqn:Ha; simpl; [discriminate|].
    intros E. injection E as <-. exact Ha.
  - intros E. apply IH. exact E.
Qed.

Lemma rstrip_first (s : string) (c : ascii) :
  Py.first_char s = Some c -> Py.isspace c = false ->
  Py.first_char (Py.rstrip s) = Some c.
Proof.
  destruct s as [|a s]; simpl; [discriminate|].
  intros E Hc. injection E as ->.
  destruct (Py.rstrip s); [rewrite Hc|]; reflexivity.
Qed.

Lemma rstrip_first_inv (s : string) (c : ascii) :
  Py.first_char (Py.rstrip s) = Some c -> Py.first_char s = Some c.
Proof.
  destruct s as [|a s]; simpl; [discriminate|].
  destruct (Py.rstrip s); [destruct (Py.isspace a)|]; simpl;
    congruence.
Qed.

(** [strip] removes a whitespace prefix and a whitespace suffix, and what
    is left neither starts nor ends with whitespace. *)
Lemma strip_spec (s : string) :
  exists l r,
    s = (l ++ Py.strip s ++ r)%string
    /\ Py.all_space l = true /\ Py.all_space r = true
    /\ (forall c, Py.first_char (Py.strip s) = Some c ->
                  Py.isspace c = false)
    /\ (forall c, Py.last_char (Py.strip s) = Some c ->
                  Py.isspace c = false).
Proof.
  destruct (lstrip_split s) as [l [Hl Sl]].
  destruct (rstrip_split (Py.lstrip s)) as [r [Hr Sr]].
  exists l, r. unfold Py.strip.
  repeat split; try assumption.
  - rewrite <- Hr. exact Hl.
  - intros c Hc. apply lstrip_first with (s := s).
    now apply rstrip_first_inv.
  - intros c Hc. now apply rstrip_last with (s := Py.lstrip s).
Qed.

(** ** [scrape_url] *)

Section ScrapeUrl.

Variable w : World.
Variable i : nat.
Variables url selector : string.

Lemma scrape_url_matched (elements : list PageElement) :
  matched w i url selector elements ->
  scrape_url w i url selector
  = map (fun e => Py.strip (text e)) elements.
Proof.
  intros [body [soup [Hg [Hp Hs]]]].
  unfold scrape_url, Py.bind. now rewrite Hg, Hp, Hs.
Qed.

Lemma scrape_url_failure (e : Py.Exception) :
  stage_fails w i url selector e ->
  scrape_url w i url selector = [error_fragment e].
Proof.
  intros [Hg | body Hg Hp | body soup Hg Hp Hs];
    unfold scrape_url, Py.bind.
  - now rewrite Hg.
  - now rewrite Hg, Hp.
  - now rewrite Hg, Hp, Hs.
Qed.

(** Either the block returns or one of its stages raised. *)
Lemma scrape_url_cases :
  (exists elements, matched w i url selector elements)
  \/ (exists e, stage_fails w i url selector e).
Proof.
  destruct (requests_get w i url) as [e|body] eqn:Hg.
  - right. exists e. now apply fetch_fails.
  - destruct (BeautifulSoup w body) as [e|soup] eqn:Hp.
    + right. exists e. now apply parse_fails with body.
    + destruct (select w soup selector) as [e|els] eqn:Hs.
      * right. exists e. now apply select_fails with body soup.
      * left. exists els, body, soup. auto.
Qed.

End ScrapeUrl.

(** ** Appending to the [results] table *)

Lemma appended_nil clock old : appended clock old [].
Proof.
  repeat split; try (intros; contradiction).
  constructor.
Qed.

Lemma StronglySorted_app {A} (R : A -> A -> Prop) (l1 l2 : list A) :
  StronglySorted R l1 -> StronglySorted R l2 ->
  (forall a b, In a l1 -> In b l2 -> R a b) ->
  StronglySorted R (l1 ++ l2).
Proof.
  induction l1 as [|x l1 IH]; simpl; intros S1 S2 H; [exact S2|].
  inversion S1 as [|? ? S1' F]; subst.
  constructor.
  - apply IH; auto.
  - apply Forall_app. split; [exact F|].
    apply Forall_forall. intros b Hb. apply H; auto.
Qed.

Lemma appended_app clock old rows1 rows2 :
  appended clock old rows1 ->
  appended clock (old ++ rows1) rows2 ->
  appended clock old (rows1 ++ rows2).
Proof.
  intros [T1 [B1 S1]] [T2 [B2 S2]].
  repeat split.
  - intros r Hr. apply in_app_or in Hr. destruct Hr; auto.
  - intros r0 r H0 Hr. apply in_app_or in Hr. destruct Hr as [Hr|Hr].
    + now apply B1.
    + apply B2; [apply in_or_app|]; auto.
  - apply StronglySorted_app; auto.
    intros a b Ha Hb. apply B2; [apply in_or_app|]; auto.
Qed.

Lemma next_rowid_above (ids : list nat) (seq n : nat) :
  In n ids -> n < next_rowid ids seq.
Proof.
  intros Hn. unfold next_rowid.
  assert (n <= list_max ids).
  { pose proof (proj1 (list_max_le ids (list_max ids)) (le_n _)) as F.
    rewrite Forall_forall in F. now apply F. }
  lia.
Qed.

Lemma insert_result_appended clock d url_id result :
  exists r,
    results (insert_result clock d url_id result) = results d ++ [r]
    /\ record_of r = (url_id, result)
    /\ appended clock (results d) [r].
Proof.
  unfold insert_result. simpl.
  eexists. split; [reflexivity|]. split; [reflexivity|].
  repeat split.
  - intros r [<-|[]]. reflexivity.
  - intros r0 r H0 [<-|[]]. simpl.
    apply next_rowid_above. now apply in_map.
  - repeat constructor.
Qed.

Lemma append_results_spec clock fragments : forall d url_id,
  let d' := append_results clock d url_id fragments in
  urls d' = urls d /\ urls_seq d' = urls_seq d
  /\ exists rows,
       results d' = results d ++ rows
       /\ map record_of rows = map (pair url_id) fragments
       /\ appended clock (results d) rows.
Proof.
  induction fragments as [|f fs IH]; intros d url_id; simpl.
  - split; [reflexivity|]. split; [reflexivity|].
    exists []. rewrite app_nil_r.
    split; [reflexivity|]. split; [reflexivity|]. apply appended_nil.
  - destruct (IH (insert_result clock d url_id f) url_id)
      as [U [Q [rows [R [M A]]]]].
    destruct (insert_result_appended clock d url_id f) as [r [R1 [M1 A1]]].
    unfold append_results in *. simpl.
    split; [exact U|]. split; [exact Q|].
    exists (r :: rows). split; [|split].
    + rewrite R, R1, <- app_assoc. reflexivity.
    + simpl. now rewrite M1, M.
    + change (r :: rows) with ([r] ++ rows).
      apply appended_app; [exact A1|]. now rewrite <- R1.
Qed.

Lemma insert_results_no_fault clock url url_id fragments :
  forall k d shown,
    insert_results clock None url url_id k fragments d shown
    = (append_results clock d url_id fragments,
       (shown ++ show_results url fragments)%string, false).
Proof.
  induction fragments as [|f fs IH]; intros k d shown; simpl.
  - now rewrite string_app_nil_r.
  - rewrite IH. unfold append_results. simpl.
    now rewrite string_app_assoc.
Qed.

(** ** One database block *)

Lemma insert_results_spec clock fault url url_id fragments :
  forall k d shown,
    insert_results clock fault url url_id k fragments d shown
    = (append_results clock d url_id (inserted_before fault k fragments),
       (shown ++ show_results url (inserted_before fault k fragments))%string,
       fault_reached fault k (length fragments)).
Proof.
  destruct fault as [f|].
  2:{ intros. apply insert_results_no_fault. }
  induction fragments as [|r rest IH]; intros k d shown;
    cbn [insert_results fault_reached inserted_before length].
  - assert (E : (k <=? f) && (f <? k + 0) = false).
    { apply andb_false_iff.
      destruct (Nat.leb_spec k f); [right|left; reflexivity].
      apply Nat.ltb_ge. lia. }
    rewrite E. simpl. now rewrite string_app_nil_r.
  - destruct (Nat.eqb_spec f k) as [->|Hne].
    + assert (E : (k <=? k) && (k <? k + S (length rest)) = true).
      { apply andb_true_iff. split; [apply Nat.leb_refl|].
        apply Nat.ltb_lt. lia. }
      rewrite E, Nat.sub_diag. simpl. now rewrite string_app_nil_r.
    + rewrite IH. cbn [fault_reached inserted_before].
      assert (E : (k <=? f) && (f <? k + S (length rest))
                  = (S k <=? f) && (f <? S k + length rest)).
      { replace (k + S (length rest)) with (S k + length rest) by lia.
        f_equal.
        destruct (Nat.leb_spec k f), (Nat.leb_spec (S k) f);
          try reflexivity; lia. }
      rewrite E.
      destruct ((S k <=? f) && (f <? S k + length rest)) eqn:R.
      * apply andb_true_iff in R. destruct R as [R _].
        apply Nat.leb_le in R.
        replace (f - k) with (S (f - S k)) by lia.
        unfold append_results. simpl. now rewrite string_app_assoc.
      * unfold append_results. simpl. now rewrite string_app_assoc.
Qed.

(** ** Reading an entry back *)

Lemma convert_reads_as_stored w s :
  reads_as_stored w s -> convert_stringval w s = Py.Str s.
Proof. unfold reads_as_stored, convert_stringval. now intros ->. Qed.

Lemma scrape_url_values_str w i url selector :
  scrape_url_values w i (Py.Str url) (Py.Str selector)
  = scrape_url w i url selector.
Proof. reflexivity. Qed.

Lemma item_fragments_as_stored w i url selector :
  reads_as_stored w url -> reads_as_stored w selector ->
  item_fragments w i (url, selector) = scrape_url w i url selector.
Proof.
  intros Hu Hs. unfold item_fragments, item_values. simpl.
  now rewrite (convert_reads_as_stored Hu), (convert_reads_as_stored Hs).
Qed.

Lemma item_url_as_stored w url selector :
  reads_as_stored w url -> item_url w (url, selector) = url.
Proof.
  intros Hu. unfold item_url, item_values. simpl.
  now rewrite (convert_reads_as_stored Hu).
Qed.

Lemma job_id_as_stored w d url :
  reads_as_stored w url ->
  job_id w d url = inr (select_id_fetchone d url).
Proof.
  intros Hu. unfold job_id. now rewrite (convert_reads_as_stored Hu).
Qed.

Lemma job_id_found w d url o :
  job_id w d url = inr o ->
  exists key,
    sqlite_bind (convert_stringval w url) = inr key
    /\ select_id_fetchone d key = o.
Proof.
  unfold job_id, Py.bind, Py.ret.
  destruct (sqlite_bind (convert_stringval w url)) as [e|key];
    [discriminate|].
  intros E. injection E as <-. now exists key.
Qed.

Lemma job_id_refused w d url e :
  job_id w d url = inl e ->
  sqlite_bind (convert_stringval w url) = inl e.
Proof.
  unfold job_id, Py.bind, Py.ret.
  destruct (sqlite_bind (convert_stringval w url)) as [e'|key];
    [congruence|discriminate].
Qed.

Lemma job_id_urls w d d' url :
  urls d' = urls d -> job_id w d' url = job_id w d url.
Proof.
  intros U. unfold job_id, Py.bind, Py.ret, select_id_fetchone.
  now rewrite U.
Qed.

Lemma sqlite_bind_str v key : sqlite_bind v = inr key -> key = Py.str v.
Proof.
  destruct v as [s|n]; cbn [sqlite_bind Py.str].
  - congruence.
  - destruct ((- 2 ^ 63 <=? n) && (n <? 2 ^ 63))%Z;
      [intros E; injection E as <-; reflexivity | discriminate].
Qed.

Section ScrapeItem.

Variable clock : Clock.
Variable w : World.
Variable i : nat.
Variable item : string * string.
Variable st : App.

Lemma scrape_item_finished url_id :
  job_id w (db st) (fst item) = inr (Some url_id) ->
  raises_after (db_fault w i) (length (item_fragments w i item)) = None ->
  scrape_item clock w i item st
  = (with_db_text st
       (append_results clock (db st) url_id (item_fragments w i item))
       (results_text st
        ++ show_results (item_url w item) (item_fragments w i item))%string,
     Finished).
Proof.
  intros Hid Hf.
  destruct (job_id_found _ _ _ Hid) as (key & Hb & Hs).
  unfold scrape_item, item_fragments, item_url, item_values in *.
  cbn [fst snd] in *.
  set (fragments := scrape_url_values _ _ _ _) in *.
  destruct (db_fault w i) as [[|k|]|] eqn:Ef; simpl in Hf;
    try discriminate; rewrite Hb, Hs, insert_results_spec;
    cbn [insert_fault fault_reached inserted_before].
  - destruct (Nat.ltb_spec k (length fragments)); [discriminate|].
    assert (E : (0 <=? k) && (k <? 0 + length fragments) = false).
    { apply andb_false_iff. right. apply Nat.ltb_ge. lia. }
    rewrite E. reflexivity.
  - reflexivity.
Qed.

Lemma scrape_item_raised url_id m :
  job_id w (db st) (fst item) = inr (Some url_id) ->
  raises_after (db_fault w i) (length (item_fragments w i item)) = Some m ->
  scrape_item clock w i item st
  = (with_db_text st (db st)
       (results_text st
        ++ show_results (item_url w item)
             (firstn m (item_fragments w i item)))%string,
     Uncaught OperationalError).
Proof.
  intros Hid Hf.
  destruct (job_id_found _ _ _ Hid) as (key & Hb & Hs).
  unfold scrape_item, item_fragments, item_url, item_values in *.
  cbn [fst snd] in *.
  set (fragments := scrape_url_values _ _ _ _) in *.
  destruct (db_fault w i) as [[|k|]|] eqn:Ef; simpl in Hf;
    try discriminate.
  - injection Hf as <-. simpl. rewrite string_app_nil_r.
    now destruct st.
  - destruct (Nat.ltb_spec k (length fragments)); [|discriminate].
    injection Hf as <-.
    rewrite Hb, Hs, insert_results_spec;
      cbn [insert_fault fault_reached inserted_before].
    assert (E : (0 <=? k) && (k <? 0 + length fragments) = true).
    { apply andb_true_iff. split; [reflexivity|]. apply Nat.ltb_lt. lia. }
    rewrite E, Nat.sub_0_r. reflexivity.
  - injection Hf as <-.
    rewrite Hb, Hs, insert_results_spec;
      cbn [insert_fault fault_reached inserted_before].
    now rewrite firstn_all.
Qed.

Lemma scrape_item_no_row :
  db_fault w i <> Some FaultConnect ->
  job_id w (db st) (fst item) = inr None ->
  scrape_item clock w i item st = (st, Uncaught TypeError).
Proof.
  intros Hf Hid.
  destruct (job_id_found _ _ _ Hid) as (key & Hb & Hs).
  unfold scrape_item, item_values. cbn [fst snd].
  destruct (db_fault w i) as [[|k|]|]; try congruence;
    now rewrite Hb, Hs.
Qed.

Lemma scrape_item_refused e :
  db_fault w i <> Some FaultConnect ->
  job_id w (db st) (fst item) = inl e ->
  scrape_item clock w i item st = (st, Uncaught e).
Proof.
  intros Hf Hid. apply job_id_refused in Hid.
  unfold scrape_item, item_values. cbn [fst snd].
  destruct (db_fault w i) as [[|k|]|]; try congruence;
    now rewrite Hid.
Qed.

Lemma scrape_item_no_connection :
  db_fault w i = Some FaultConnect ->
  scrape_item clock w i item st = (st, Uncaught OperationalError).
Proof.
  intros Hf. unfold scrape_item, item_values. cbn [fst snd].
  now rewrite Hf.
Qed.

End ScrapeItem.

Lemma scrape_item_cases_connected clock w i item st :
  db_fault w i <> Some FaultConnect ->
  (exists url_id,
     job_id w (db st) (fst item) = inr (Some url_id)
     /\ scrape_item clock w i item st
        = (with_db_text st
             (append_results clock (db st) url_id (item_fragments w i item))
             (results_text st
              ++ show_results (item_url w item)
                   (item_fragments w i item))%string,
           Finished))
  \/ (exists e shown,
        scrape_item clock w i item st
        = (with_db_text st (db st) shown, Uncaught e)).
Proof.
  intros Hc.
  assert (Same : st = with_db_text st (db st) (results_text st))
    by now destruct st.
  destruct (job_id w (db st) (fst item)) as [e|[url_id|]] eqn:Hid.
  - right. exists e, (results_text st).
    rewrite (@scrape_item_refused clock w i item st e Hc Hid).
    now rewrite <- Same.
  - destruct (raises_after (db_fault w i)
                (length (item_fragments w i item))) as [m|] eqn:Hf.
    + right. eexists. eexists.
      erewrite scrape_item_raised by eassumption. reflexivity.
    + left. exists url_id. split; [reflexivity|].
      now erewrite scrape_item_finished by eassumption.
  - right. exists TypeError, (results_text st).
    rewrite (@scrape_item_no_row clock w i item st Hc Hid).
    now rewrite <- Same.
Qed.

(** A block either stores every fragment of its entry under the id the
    lookup returned, or ends the worker and leaves everything but the
    results text as it was. *)
Lemma scrape_item_cases clock w i item st :
  (exists url_id,
     job_id w (db st) (fst item) = inr (Some url_id)
     /\ scrape_item clock w i item st
        = (with_db_text st
             (append_results clock (db st) url_id (item_fragments w i item))
             (results_text st
              ++ show_results (item_url w item)
                   (item_fragments w i item))%string,
           Finished))
  \/ (exists e shown,
        scrape_item clock w i item st
        = (with_db_text st (db st) shown, Uncaught e)).
Proof.
  assert (Same : st = with_db_text st (db st) (results_text st))
    by now destruct st.
  destruct (db_fault w i) as [f|] eqn:Ef.
  - destruct f as [|k|].
    + right. exists OperationalError, (results_text st).
      rewrite scrape_item_no_connection by exact Ef. now rewrite <- Same.
    + apply (@scrape_item_cases_connected clock w i item st); congruence.
    + apply (@scrape_item_cases_connected clock w i item st); congruence.
  - apply (@scrape_item_cases_connected clock w i item st); congruence.
Qed.

(** ** The loop over the snapshot *)

Lemma same_registry_refl st : same_registry st st.
Proof. repeat split. Qed.

Lemma same_registry_trans st1 st2 st3 :
  same_registry st1 st2 -> same_registry st2 st3 -> same_registry st1 st3.
Proof.
  unfold same_registry. intros (A & B & C & D & E) (A' & B' & C' & D' & E').
  repeat split; congruence.
Qed.

Lemma extends_results_refl clock st : extends_results clock st st [].
Proof.
  split; [now rewrite app_nil_r | apply appended_nil].
Qed.

Lemma extends_results_trans clock st1 st2 st3 rows1 rows2 :
  extends_results clock st1 st2 rows1 ->
  extends_results clock st2 st3 rows2 ->
  extends_results clock st1 st3 (rows1 ++ rows2).
Proof.
  intros [R1 A1] [R2 A2]. split.
  - now rewrite R2, R1, app_assoc.
  - apply appended_app; [exact A1|]. now rewrite <- R1.
Qed.

Lemma select_id_fetchone_urls d d' url :
  urls d' = urls d ->
  select_id_fetchone d' url = select_id_fetchone d url.
Proof. unfold select_id_fetchone. now intros ->. Qed.

Lemma expected_records_urls d d' w items :
  urls d' = urls d ->
  forall i, expected_records d' w i items = expected_records d w i items.
Proof.
  intros U. induction items as [|item rest IH]; intros i; simpl.
  - reflexivity.
  - now rewrite IH, (job_id_urls w d d' (fst item) U).
Qed.

Section Loop.

Variable clock : Clock.
Variable w : World.

Lemma scrape_item_frame i item st :
  let r := scrape_item clock w i item st in
  same_registry st (fst r)
  /\ exists rows, extends_results clock st (fst r) rows.
Proof.
  destruct (scrape_item_cases clock w i item st)
    as [(url_id & _ & E) | (e & shown & E)]; rewrite E; simpl.
  - destruct (append_results_spec clock (item_fragments w i item)
                (db st) url_id) as (U & Q & rows & R & _ & A).
    split; [now repeat split|].
    exists rows. now split.
  - split; [now repeat split|].
    exists []. split; [simpl; now rewrite app_nil_r | apply appended_nil].
Qed.

(** Whatever happens during the loop, the registry is untouched and the
    [results] rows present before it are all kept. *)
Lemma scrape_loop_frame items : forall i st,
  let r := scrape_loop clock w i items st in
  same_registry st (fst r)
  /\ exists rows, extends_results clock st (fst r) rows.
Proof.
  induction items as [|item rest IH]; intros i st; simpl.
  - split; [apply same_registry_refl|].
    exists []. apply extends_results_refl.
  - destruct (scrape_item_frame i item st) as [S1 [rows1 E1]].
    destruct (scrape_item clock w i item st) as [st1 [|e]]; simpl in *.
    + destruct (IH (S i) st1) as [S2 [rows2 E2]].
      split; [eapply same_registry_trans; eauto|].
      exists (rows1 ++ rows2). eapply extends_results_trans; eauto.
    + split; [exact S1|]. exists rows1. exact E1.
Qed.

(** Without database faults and with every url found, the loop finishes,
    whatever the fetches and selections did. *)
Lemma scrape_loop_finished items : forall i st,
  no_fault_in w i (length items) ->
  resolvable w (db st) items ->
  exists st' rows,
    scrape_loop clock w i items st = (st', Finished)
    /\ same_registry st st'
    /\ extends_results clock st st' rows
    /\ map record_of rows = expected_records (db st) w i items
    /\ results_text st'
       = (results_text st ++ shown_text w i items)%string.
Proof.
  induction items as [|[url selector] rest IH]; intros i st NF RS.
  - exists st, []. simpl. rewrite string_app_nil_r.
    split; [reflexivity|]. split; [apply same_registry_refl|].
    split; [apply extends_results_refl|]. split; reflexivity.
  - destruct (RS url selector (or_introl eq_refl)) as [url_id Hid].
    assert (Hf : raises_after (db_fault w i)
                   (length (item_fragments w i (url, selector))) = None).
    { rewrite NF; [reflexivity | simpl; lia]. }
    cbn [scrape_loop expected_records shown_text fst].
    rewrite (@scrape_item_finished clock w i (url, selector) st url_id Hid Hf).
    rewrite Hid.
    destruct (append_results_spec clock
                (item_fragments w i (url, selector)) (db st) url_id)
      as (U & Q & rows1 & R1 & M1 & A1).
    set (st1 := with_db_text st _ _).
    assert (S1 : same_registry st st1) by now repeat split.
    destruct (IH (S i) st1) as (st' & rows2 & L & S2 & E2 & M2 & T2).
    { intros k Hk. apply NF. simpl. lia. }
    { intros u s Hin.
      rewrite (job_id_urls w (db st) (db st1) u U).
      apply (RS u s). now right. }
    exists st', (rows1 ++ rows2). rewrite L.
    split; [reflexivity|].
    split; [eapply same_registry_trans; eauto|].
    split.
    { eapply extends_results_trans; [|exact E2]. now split. }
    split.
    { rewrite map_app, M1, M2.
      now rewrite (expected_records_urls (db st) (db st1) w rest U). }
    rewrite T2. subst st1. simpl. apply string_app_assoc.
Qed.

(** The loop over two consecutive parts of the snapshot is the loop over
    the first part followed, if that one finished, by the loop over the
    second part on the state it left. *)
Lemma scrape_loop_app items1 items2 : forall i st,
  scrape_loop clock w i (items1 ++ items2) st
  = match scrape_loop clock w i items1 st with
    | (st', Finished) => scrape_loop clock w (i + length items1) items2 st'
    | (st', Uncaught e) => (st', Uncaught e)
    end.
Proof.
  induction items1 as [|item rest IH]; intros i st; simpl.
  - now rewrite Nat.add_0_r.
  - destruct (scrape_item clock w i item st) as [st1 [|e]].
    + rewrite IH. now replace (S i + length rest) with (i + S (length rest))
        by lia.
    + reflexivity.
Qed.

End Loop.

(** ** The registry *)

Lemma init_mirrors file : mirrors (init file).
Proof. reflexivity. Qed.

Lemma add_cases fault url selector st :
  (snd (add fault url selector st) = Added
   /\ url <> EmptyString /\ selector <> EmptyString /\ fault = false
   /\ db (fst (add fault url selector st))
      = insert_url (db st) url selector
   /\ url_list (fst (add fault url selector st))
      = url_list st ++ [(url, selector)])
  \/ (snd (add fault url selector st) <> Added
      /\ fst (add fault url selector st) = type_entries url selector st).
Proof.
  unfold add, add_url. simpl.
  destruct url as [|c u]; [right; split; [discriminate|reflexivity]|].
  destruct selector as [|c' s]; [right; split; [discriminate|reflexivity]|].
  destruct fault; simpl.
  - right. split; [discriminate|reflexivity].
  - left. repeat split; discriminate.
Qed.

Lemma select_url_selector_insert d url selector :
  select_url_selector (insert_url d url selector)
  = select_url_selector d ++ [(url, selector)].
Proof. unfold select_url_selector, insert_url. simpl. now rewrite map_app. Qed.

Lemma scrape_thread_frame clock w st :
  same_registry st (fst (scrape_thread clock w st))
  /\ exists rows, extends_results clock st (fst (scrape_thread clock w st))
                                  rows.
Proof.
  unfold scrape_thread. simpl.
  destruct (scrape_loop_frame clock w (url_list st) 0
              (results_text_clear st)) as [S [rows E]].
  split; [exact S|]. exists rows. exact E.
Qed.

Lemma perform_registry clock a st :
  mirrors st ->
  mirrors (perform clock a st)
  /\ select_url_selector (db (perform clock a st))
     = select_url_selector (db st)
       ++ successfully_added clock [a] st.
Proof.
  intros M. unfold mirrors in *. destruct a as [fault url selector|w]; simpl.
  - destruct (add_cases fault url selector st)
      as [(O & _ & _ & _ & D & L) | (O & S)].
    + rewrite O, D, L, select_url_selector_insert, M. auto.
    + rewrite S. simpl.
      destruct (snd (add fault url selector st)); try congruence;
        now rewrite app_nil_r.
  - unfold run_threads. simpl.
    destruct (scrape_thread_frame clock w st) as [(U & _ & L & _) _].
    unfold select_url_selector. rewrite U, L, app_nil_r. auto.
Qed.

Lemma perform_all_registry clock actions : forall st,
  mirrors st ->
  mirrors (perform_all clock actions st)
  /\ select_url_selector (db (perform_all clock actions st))
     = select_url_selector (db st)
       ++ successfully_added clock actions st.
Proof.
  induction actions as [|a rest IH]; intros st M.
  - simpl. now rewrite app_nil_r.
  - destruct (perform_registry clock a M) as [M1 E1].
    destruct (IH _ M1) as [M2 E2].
    change (perform_all clock (a :: rest) st)
      with (perform_all clock rest (perform clock a st)).
    split; [exact M2|].
    rewrite E2, E1. simpl successfully_added.
    now rewrite app_nil_r, <- app_assoc.
Qed.

(** In a state where the list mirrors the table, the entries whose url is
    read back as stored are found under the id of the first row with that
    url. *)
Lemma mirrors_resolvable w st :
  mirrors st ->
  (forall url selector,
     In (url, selector) (url_list st) -> reads_as_stored w url) ->
  resolvable w (db st) (url_list st).
Proof.
  intros M RA url selector Hin.
  rewrite (job_id_as_stored (db st) (RA url selector Hin)).
  unfold mirrors, select_url_selector in M. rewrite M in Hin.
  apply in_map_iff in Hin. destruct Hin as [r [E Hr]].
  injection E as Eu _.
  unfold select_id_fetchone.
  assert (Hf : In r (filter (fun r0 => String.eqb (urls_url r0) url)
                            (urls (db st)))).
  { apply filter_In. split; [exact Hr|]. now apply String.eqb_eq. }
  destruct (filter _ _) as [|r0 l]; [contradiction|].
  now exists (urls_id r0).
Qed.

(** ** Extraction *)

(** C6.  When the page is fetched and parsed and the selector is
    accepted, [scrape_url] returns one fragment per element that
    [soup.select] matched, in the order of the matches (document order):
    fragment number [k] is the text content of match number [k] with its
    leading and trailing whitespace removed.  In particular two matches
    with the texts "A" and " B " give the fragments "A" and "B", in that
    order. *)
Theorem C6_fragments_are_trimmed_texts_in_order
  (w : World) (i : nat) (url selector : string)
  (elements : list PageElement) :
  matched w i url selector elements ->
  let fragments := scrape_url w i url selector in
  length fragments = length elements
  /\ (forall k e,
        nth_error elements k = Some e ->
        nth_error fragments k = Some (Py.strip (text e))
        /\ trimmed (text e) (Py.strip (text e)))
  /\ (map text elements = ["A"; " B "] -> fragments = ["A"; "B"]).
Proof.
  intros M. simpl. rewrite (scrape_url_matched M).
  split; [apply length_map|]. split.
  - intros k e Hk. split.
    + rewrite nth_error_map, Hk. reflexivity.
    + apply strip_spec.
  - intros E. rewrite <- (map_map text Py.strip), E. reflexivity.
Qed.

(** The example page, fetched, parsed and queried with [.item]. *)
Lemma C6_example_page_matched :
  matched Example.world 0 Example.page_url ".item"
          [Example.item "A"; Example.item " B "].
Proof.
  exists Example.markup, Example.soup.
  split; [reflexivity|]. split; reflexivity.
Defined.

(** C6 on the example page. *)
Lemma C6_witness :
  matched Example.world 0 Example.page_url ".item"
          [Example.item "A"; Example.item " B "]
  /\ scrape_url Example.world 0 Example.page_url ".item" = ["A"; "B"].
Proof.
  split; [exact C6_example_page_matched|].
  apply (C6_fragments_are_trimmed_texts_in_order C6_example_page_matched).
  reflexivity.
Defined.

(** C8.  When the page is fetched and parsed and the selector matches no
    element, [scrape_url] returns the empty list: nothing is raised and
    no error fragment is produced. *)
Theorem C8_no_match_gives_empty_list
  (w : World) (i : nat) (url selector : string) :
  matched w i url selector [] ->
  scrape_url w i url selector = [].
Proof.
  intros M. now rewrite (scrape_url_matched M).
Qed.

(** The example page queried with [.missing]. *)
Lemma C8_example_page_no_match :
  matched Example.world 0 Example.page_url ".missing" [].
Proof.
  exists Example.markup, Example.soup.
  split; [reflexivity|]. split; reflexivity.
Defined.

(** C8 on the example page. *)
Lemma C8_witness :
  matched Example.world 0 Example.page_url ".missing" []
  /\ scrape_url Example.world 0 Example.page_url ".missing" = [].
Proof.
  split; [exact C8_example_page_no_match|].
  exact (C8_no_match_gives_empty_list C8_example_page_no_match).
Defined.

(** ** Registration *)

(** C4, as stated, fails: a url made of one space is not empty, so the
    registration is accepted and a row is stored. *)
Lemma C4_blank_url_is_registered :
  Py.all_space " " = true
  /\ snd (add false " " "x" (init None)) = Added
  /\ urls (db (fst (add false " " "x" (init None))))
     = [mkUrlRow 1 " " "x"]
  /\ url_list (fst (add false " " "x" (init None))) = [(" ", "x")].
Proof. repeat split. Qed.

(** C4, amended.  A registration whose url or selector is the empty
    string is refused with the error dialog and leaves the database and
    the list as they were; the entries keep what was typed.  Any other
    registration, whitespace-only strings included, is accepted when the
    database does not fail: it answers [Added], stores one more row and
    lists one more pair. *)
Theorem C4_add_refuses_exactly_the_empty_string
  (fault : bool) (url selector : string) (st : App) :
  (url = EmptyString \/ selector = EmptyString ->
   add fault url selector st
   = (type_entries url selector st,
      ShowError "Error" "Por favor ingrese URL y selector CSS")
   /\ db (fst (add fault url selector st)) = db st
   /\ url_list (fst (add fault url selector st)) = url_list st)
  /\ (url <> EmptyString -> selector <> EmptyString -> fault = false ->
      snd (add fault url selector st) = Added
      /\ select_url_selector (db (fst (add fault url selector st)))
         = select_url_selector (db st) ++ [(url, selector)]
      /\ url_list (fst (add fault url selector st))
         = url_list st ++ [(url, selector)]).
Proof.
  split.
  - intros [-> | ->]; unfold add, add_url; simpl.
    + repeat split.
    + destruct url; repeat split.
  - intros Hu Hs ->. unfold add, add_url. simpl.
    destruct url as [|c u]; [congruence|].
    destruct selector as [|c' s]; [congruence|]. simpl.
    split; [reflexivity|]. split; [|reflexivity].
    apply select_url_selector_insert.
Qed.

(** C7.  Starting the program on any database file and then performing
    any sequence of button presses, [SELECT url, selector FROM urls]
    returns the pairs already stored followed by the pair of every
    registration that answered [Added], in the order the registrations
    were made; the list the worker enumerates holds the same pairs, and so
    does the list [load_urls] builds when the program is started again. *)
Theorem C7_list_is_every_added_job_in_creation_order
  (clock : Clock) (file : option Database) (actions : list Action) :
  let st := perform_all clock actions (init file) in
  let jobs := select_url_selector (create_database file)
              ++ successfully_added clock actions (init file) in
  select_url_selector (db st) = jobs
  /\ url_list st = jobs
  /\ url_list (init (Some (db st))) = jobs.
Proof.
  destruct (perform_all_registry clock actions (init_mirrors file))
    as [M E].
  simpl. unfold mirrors in M.
  change (db (init file)) with (create_database file) in E.
  split; [exact E|]. split; [now rewrite M|].
  unfold init, load_urls. simpl. exact E.
Qed.

(** ** Runs *)

Lemma resolvable_urls w d d' items :
  urls d' = urls d -> resolvable w d items -> resolvable w d' items.
Proof.
  intros U R url selector Hin.
  rewrite (job_id_urls w d d' url U). now apply (R url selector).
Qed.

Lemma resolvable_firstn w d items n :
  resolvable w d items -> resolvable w d (firstn n items).
Proof.
  intros R url selector Hin. apply (R url selector).
  rewrite <- (firstn_skipn n items). apply in_or_app. now left.
Qed.

(** A run whose database blocks do not raise and whose urls are all found
    finishes, whatever the fetches and the selections did; it writes one
    row per fragment and shows one entry per fragment. *)
Lemma scrape_thread_finishes clock w st :
  no_fault_in w 0 (length (url_list st)) ->
  resolvable w (db st) (url_list st) ->
  exists st' rows,
    scrape_thread clock w st = (st', Finished)
    /\ same_registry st st'
    /\ extends_results clock st st' rows
    /\ map record_of rows = expected_records (db st) w 0 (url_list st)
    /\ results_text st' = shown_text w 0 (url_list st).
Proof.
  intros NF RS. unfold scrape_thread.
  destruct (@scrape_loop_finished clock w (url_list st) 0
              (results_text_clear st) NF RS)
    as (st' & rows & L & S & E & M & T).
  exists st', rows. simpl. auto.
Qed.

(** A run reaches the entry at position [n] when the blocks before it do
    not raise and the urls before it are found; what happens from there
    is decided by that entry's block. *)
Lemma scrape_thread_reaches clock w st n item :
  nth_error (url_list st) n = Some item ->
  no_fault_in w 0 n ->
  resolvable w (db st) (firstn n (url_list st)) ->
  exists st',
    scrape_loop clock w 0 (firstn n (url_list st)) (results_text_clear st)
    = (st', Finished)
    /\ same_registry st st'
    /\ results_text st' = shown_text w 0 (firstn n (url_list st))
    /\ scrape_thread clock w st
       = match scrape_item clock w n item st' with
         | (s, Finished) =>
             scrape_loop clock w (S n) (skipn (S n) (url_list st)) s
         | (s, Uncaught e) => (s, Uncaught e)
         end.
Proof.
  intros Hn NF RS.
  destruct (nth_error_split _ _ Hn) as (l1 & l2 & El & Len).
  assert (F : firstn n (url_list st) = l1).
  { rewrite El, firstn_app, Len, Nat.sub_diag, <- Len, firstn_all.
    simpl. apply app_nil_r. }
  assert (K : skipn (S n) (url_list st) = l2).
  { rewrite El, skipn_app, <- Len.
    replace (S (length l1) - length l1) with 1 by lia.
    rewrite skipn_all2 by lia. reflexivity. }
  rewrite F in RS |- *. rewrite K.
  destruct (@scrape_loop_finished clock w l1 0 (results_text_clear st))
    as (st' & rows & L & S & _ & _ & T).
  { now rewrite Len. }
  { exact RS. }
  exists st'. split; [exact L|]. split; [exact S|]. split; [exact T|].
  unfold scrape_thread. simpl url_list. rewrite El at 1.
  rewrite scrape_loop_app, L, Len. simpl.
  destruct (scrape_item clock w n item st') as [s [|e]]; reflexivity.
Qed.

Lemma expected_records_fragments d w items :
  resolvable w d items ->
  forall i, map snd (expected_records d w i items) = all_fragments w i items.
Proof.
  induction items as [|[url selector] rest IH]; intros RS i; simpl.
  - reflexivity.
  - rewrite map_app, IH.
    2:{ intros u s Hin. apply (RS u s). now right. }
    destruct (RS url selector (or_introl eq_refl)) as [url_id Hid].
    rewrite Hid. now rewrite map_map, map_id.
Qed.

Lemma expected_records_nth d w items : forall i n item url_id f,
  nth_error items n = Some item ->
  job_id w d (fst item) = inr (Some url_id) ->
  In f (item_fragments w (i + n) item) ->
  In (url_id, f) (expected_records d w i items).
Proof.
  induction items as [|item0 rest IH]; intros i n item url_id f Hn Hid Hf.
  - destruct n; discriminate.
  - destruct n as [|n]; simpl in *.
    + injection Hn as ->. rewrite Hid. apply in_or_app. left.
      rewrite Nat.add_0_r in Hf. now apply in_map.
    + apply in_or_app. right.
      apply (IH (S i) n item); auto.
      now replace (S i + n) with (i + S n) by lia.
Qed.

(** A fetch or extraction that raises becomes one stored row: when every
    entry is found, no database block raises and the entry at position
    [n] is read back as stored, the run finishes, every fragment of
    every entry is stored as one row after the rows already there, and
    the entry whose stage raised contributes the single row that carries
    its error text, under the id the lookup by url returned. *)
Lemma failure_is_recorded_and_run_finishes clock w st n url selector e :
  resolvable w (db st) (url_list st) ->
  no_fault_in w 0 (length (url_list st)) ->
  nth_error (url_list st) n = Some (url, selector) ->
  reads_as_stored w url -> reads_as_stored w selector ->
  stage_fails w n url selector e ->
  exists st' rows url_id,
    scrape_thread clock w st = (st', Finished)
    /\ results (db st') = results (db st) ++ rows
    /\ map results_result rows = all_fragments w 0 (url_list st)
    /\ scrape_url w n url selector = [error_fragment e]
    /\ select_id_fetchone (db st) url = Some url_id
    /\ In (url_id, error_fragment e) (map record_of rows).
Proof.
  intros RS NF Hn Ru Rs SF.
  destruct (@scrape_thread_finishes clock w st NF RS)
    as (st' & rows & L & _ & [R _] & E & _).
  destruct (RS url selector (nth_error_In _ _ Hn)) as [url_id Hid].
  exists st', rows, url_id.
  split; [exact L|]. split; [exact R|]. split.
  { rewrite <- (@expected_records_fragments (db st) w (url_list st) RS 0).
    rewrite <- E, map_map. reflexivity. }
  split; [now apply scrape_url_failure|]. split.
  { rewrite (job_id_as_stored (db st) Ru) in Hid. congruence. }
  rewrite E. apply expected_records_nth with (n := n) (item := (url, selector));
    [exact Hn | exact Hid |].
  simpl. rewrite (item_fragments_as_stored n Ru Rs).
  rewrite (scrape_url_failure SF). now left.
Qed.

Lemma select_id_fetchone_find d url :
  select_id_fetchone d url
  = option_map urls_id
      (find (fun r => String.eqb (urls_url r) url) (urls d)).
Proof.
  unfold select_id_fetchone.
  induction (urls d) as [|r rows IH]; simpl; [reflexivity|].
  destruct (String.eqb (urls_url r) url); [reflexivity | exact IH].
Qed.



(** ** Which job a stored row is attributed to *)

(** C2, at two jobs that share a url.  The job with id 2 selects the
    price; its fragment "10" is stored with [url_id] 1, the id of the
    first row with that url, and no row carries id 2. *)
Theorem C2_same_url_rows_carry_the_first_id :
  let r := scrape_thread Example.ticking Example.world SameUrl.tea_jobs in
  urls (db SameUrl.tea_jobs)
  = [mkUrlRow 1 Example.tea_url ".name";
     mkUrlRow 2 Example.tea_url ".price"]
  /\ scrape_url Example.world 0 Example.tea_url ".name" = ["Tea"]
  /\ scrape_url Example.world 1 Example.tea_url ".price" = ["10"]
  /\ snd r = Finished
  /\ map record_of (results (db (fst r))) = [(1, "Tea"); (1, "10")].
Proof. repeat split. Qed.

(** C1, at two jobs that share a url that times out.  The run finishes
    and each job yields the single fragment "Error: connection timed
    out", but both rows are stored with [url_id] 1: the job with id 2
    gets no row of its own and the job with id 1 gets two. *)
Theorem C1_same_url_error_rows_carry_the_first_id :
  let r := scrape_thread Example.ticking Example.world SameUrl.down_jobs in
  urls (db SameUrl.down_jobs)
  = [mkUrlRow 1 SameUrl.down_url ".a"; mkUrlRow 2 SameUrl.down_url ".b"]
  /\ scrape_url Example.world 0 SameUrl.down_url ".a"
     = ["Error: connection timed out"]
  /\ scrape_url Example.world 1 SameUrl.down_url ".b"
     = ["Error: connection timed out"]
  /\ snd r = Finished
  /\ map record_of (results (db (fst r)))
     = [(1, "Error: connection timed out");
        (1, "Error: connection timed out")].
Proof. repeat split. Qed.

(** ** Database faults during a run *)

(** C3, as stated, fails: when the database cannot be opened for the
    first entry the worker ends with an exception nobody catches, and the
    results widget, the only thing the caller sees of a run, stays
    empty. *)
Lemma C3_fault_is_not_shown :
  let st := fst (add false Example.page_url ".item" (init None)) in
  let r := scrape_thread Example.ticking
             (Example.world_with_fault 0 FaultConnect) st in
  snd r = Uncaught OperationalError
  /\ results_text (fst r) = EmptyString
  /\ results (db (fst r)) = [].
Proof. repeat split. Qed.

(** C3, amended.  In a state where every list entry, as the worker reads
    it back, has a row under its url: a run whose database blocks do not
    raise finishes, whatever the fetches and the selections did; and
    when the block of the entry at position [n] is the first to raise,
    after [m] of that entry's fragments were shown, the worker ends there
    with the database exception uncaught, the database is the one the
    entries before [n] left (nothing of entry [n] or of a later entry is
    stored), and the results widget holds the fragment entries shown so
    far and nothing else, so nothing is shown for the fault. *)
Theorem C3_database_fault_ends_the_run_unreported
  (clock : Clock) (w : World) (st : App) :
  resolvable w (db st) (url_list st) ->
  (no_fault_in w 0 (length (url_list st)) ->
   snd (scrape_thread clock w st) = Finished)
  /\ (forall n item m,
        nth_error (url_list st) n = Some item ->
        no_fault_in w 0 n ->
        raises_after (db_fault w n) (length (item_fragments w n item))
        = Some m ->
        let before := firstn n (url_list st) in
        snd (scrape_thread clock w st) = Uncaught OperationalError
        /\ db (fst (scrape_thread clock w st))
           = db (fst (scrape_loop clock w 0 before (results_text_clear st)))
        /\ results_text (fst (scrape_thread clock w st))
           = (shown_text w 0 before
              ++ show_results (item_url w item)
                   (firstn m (item_fragments w n item)))%string).
Proof.
  intros RS. split.
  - intros NF.
    destruct (@scrape_thread_finishes clock w st NF RS)
      as (st' & rows & L & _).
    now rewrite L.
  - intros n [url selector] m Hn NF Hf before.
    destruct (@scrape_thread_reaches clock w st n (url, selector) Hn NF)
      as (st' & L & S & T & E).
    { now apply resolvable_firstn. }
    destruct S as (U & _).
    destruct (RS url selector (nth_error_In _ _ Hn)) as [url_id Hid].
    rewrite <- (job_id_urls w (db st) (db st') url U) in Hid.
    rewrite (@scrape_item_raised clock w n (url, selector) st' url_id m
               Hid Hf) in E.
    rewrite E. subst before. rewrite L. simpl.
    split; [reflexivity|]. split; [reflexivity|]. now rewrite T.
Qed.

(** One job on the example page: its entry is found under id 1. *)
Lemma one_job_resolvable :
  resolvable Example.world
    (db (fst (add false Example.page_url ".item" (init None))))
    (url_list (fst (add false Example.page_url ".item" (init None)))).
Proof.
  intros url selector [E|[]]. injection E as <- <-.
  exists 1. reflexivity.
Defined.

(** C3, amended, on one job: a healthy run, and a run whose second INSERT
    raises. *)
Lemma C3_witness :
  let st := fst (add false Example.page_url ".item" (init None)) in
  let broken := Example.world_with_fault 0 (FaultInsert 1) in
  resolvable Example.world (db st) (url_list st)
  /\ snd (scrape_thread Example.ticking Example.world st) = Finished
  /\ snd (scrape_thread Example.ticking broken st)
     = Uncaught OperationalError
  /\ results (db (fst (scrape_thread Example.ticking broken st))) = []
  /\ results_text (fst (scrape_thread Example.ticking broken st))
     = result_entry Example.page_url "A".
Proof.
  intros st broken.
  pose proof one_job_resolvable as RS. fold st in RS.
  split; [exact RS|]. split.
  - apply (proj1 (@C3_database_fault_ends_the_run_unreported
                    Example.ticking Example.world st RS)).
    intros k Hk. reflexivity.
  - destruct (proj2 (@C3_database_fault_ends_the_run_unreported
                       Example.ticking broken st RS)
                0 (Example.page_url, ".item") 1) as (O & D & T).
    + reflexivity.
    + intros k Hk. exfalso. lia.
    + reflexivity.
    + split; [exact O|]. split.
      * rewrite D. reflexivity.
      * rewrite T. reflexivity.
Defined.

(** ** Accumulation over successive runs *)




(** ** How the jobs of a run are scheduled *)

(** C9, as stated, fails: with two jobs in the list, [start_scraping]
    starts one thread, not two. *)
Lemma C9_two_jobs_one_thread :
  length (url_list SameUrl.tea_jobs) = 2
  /\ length (start_scraping Example.ticking Example.world) = 1
  /\ length (start_scraping Example.ticking Example.world)
     <> length (url_list SameUrl.tea_jobs).
Proof. repeat split. discriminate. Qed.

(** C9, amended.  [start_scraping] starts exactly one worker for the
    whole run, whatever the number of jobs.  That worker takes the
    entries one after the other, in list order: the entry at position
    [n] is fetched, extracted and stored by its block on the state the
    entries before it left, the entries after it follow on the state that
    block left, and if that entry or an earlier one ends the worker, no
    later entry is processed.  When every entry is found and no database
    block raises, the rows of the run are the fragments of the first
    entry, then those of the second, and so on, stored under growing
    ids. *)
Theorem C9_one_worker_processes_the_jobs_in_order
  (clock : Clock) (w : World) (st : App) :
  length (start_scraping clock w) = 1
  /\ run_threads (start_scraping clock w) st
     = fst (scrape_thread clock w st)
  /\ (forall n item,
        nth_error (url_list st) n = Some item ->
        scrape_thread clock w st
        = match scrape_loop clock w 0 (firstn n (url_list st))
                  (results_text_clear st) with
          | (st', Finished) =>
              match scrape_item clock w n item st' with
              | (s, Finished) =>
                  scrape_loop clock w (S n) (skipn (S n) (url_list st)) s
              | (s, Uncaught e) => (s, Uncaught e)
              end
          | (st', Uncaught e) => (st', Uncaught e)
          end)
  /\ (resolvable w (db st) (url_list st) ->
      no_fault_in w 0 (length (url_list st)) ->
      exists st' rows,
        scrape_thread clock w st = (st', Finished)
        /\ results (db st') = results (db st) ++ rows
        /\ map results_result rows = all_fragments w 0 (url_list st)
        /\ StronglySorted (fun a b => results_id a < results_id b) rows).
Proof.
  split; [reflexivity|]. split; [reflexivity|]. split.
  - intros n item Hn.
    destruct (nth_error_split _ _ Hn) as (l1 & l2 & El & Len).
    assert (F : firstn n (url_list st) = l1).
    { rewrite El, firstn_app, Len, Nat.sub_diag, <- Len, firstn_all.
      simpl. apply app_nil_r. }
    assert (K : skipn (S n) (url_list st) = l2).
    { rewrite El, skipn_app, <- Len.
      replace (S (length l1) - length l1) with 1 by lia.
      rewrite skipn_all2 by lia. reflexivity. }
    rewrite F, K. unfold scrape_thread. simpl url_list. rewrite El at 1.
    rewrite scrape_loop_app.
    destruct (scrape_loop clock w 0 l1 (results_text_clear st))
      as [st' [|e]]; [|reflexivity].
    simpl. rewrite Len.
    destruct (scrape_item clock w n item st') as [s [|e]]; reflexivity.
  - intros RS NF.
    destruct (@scrape_thread_finishes clock w st NF RS)
      as (st' & rows & L & _ & [R (_ & _ & Sorted)] & E & _).
    exists st', rows.
    split; [exact L|]. split; [exact R|]. split.
    { rewrite <- (@expected_records_fragments (db st) w (url_list st) RS 0).
      rewrite <- E, map_map. reflexivity. }
    exact Sorted.
Qed.

(** Two jobs on the tea page: both entries are found. *)
Lemma tea_jobs_resolvable :
  resolvable Example.world (db SameUrl.tea_jobs) (url_list SameUrl.tea_jobs).
Proof.
  intros url selector [E|[E|[]]]; injection E as <- <-;
    exists 1; reflexivity.
Defined.

(** C9, amended, on two jobs: the rows are those of the first job, then
    those of the second. *)
Lemma C9_witness :
  resolvable Example.world (db SameUrl.tea_jobs) (url_list SameUrl.tea_jobs)
  /\ no_fault_in Example.world 0 (length (url_list SameUrl.tea_jobs))
  /\ exists st' rows,
       scrape_thread Example.ticking Example.world SameUrl.tea_jobs
       = (st', Finished)
       /\ results (db st') = results (db SameUrl.tea_jobs) ++ rows
       /\ map results_result rows
          = all_fragments Example.world 0 (url_list SameUrl.tea_jobs)
       /\ StronglySorted (fun a b => results_id a < results_id b) rows.
Proof.
  assert (NF : no_fault_in Example.world 0
                 (length (url_list SameUrl.tea_jobs)))
    by (intros k Hk; reflexivity).
  split; [exact tea_jobs_resolvable|]. split; [exact NF|].
  apply (proj2 (proj2 (proj2
           (@C9_one_worker_processes_the_jobs_in_order
              Example.ticking Example.world SameUrl.tea_jobs)))
           tea_jobs_resolvable NF).
Defined.

(** ** The lookup of the job id *)




(** C4, amended, on an empty url and on a url of one space. *)
Lemma C4_witness :
  (EmptyString = EmptyString \/ "x" = EmptyString)
  /\ add false EmptyString "x" (init None)
     = (type_entries EmptyString "x" (init None),
        ShowError "Error" "Por favor ingrese URL y selector CSS")
  /\ snd (add false " " "x" (init None)) = Added.
Proof.
  assert (H : EmptyString = EmptyString \/ "x" = EmptyString)
    by (left; reflexivity).
  split; [exact H|]. split.
  - apply (proj1 (C4_add_refuses_exactly_the_empty_string
                    false EmptyString "x" (init None)) H).
  - apply (proj2 (C4_add_refuses_exactly_the_empty_string
                    false " " "x" (init None)));
      [discriminate | discriminate | reflexivity].
Defined.

(** * Further properties of the code *)

(** ** Ids *)

Lemma list_max_seq (n : nat) : list_max (seq 1 n) = n.
Proof.
  induction n as [|n IH]; [reflexivity|].
  rewrite seq_S, list_max_app, IH. simpl. lia.
Qed.

Lemma counted_next (ids : list nat) (seq_ : nat) :
  counted ids seq_ ->
  counted (ids ++ [next_rowid ids seq_]) (next_rowid ids seq_).
Proof.
  intros [E ->].
  assert (N : next_rowid ids (length ids) = S (length ids)).
  { unfold next_rowid. rewrite E at 2. rewrite list_max_seq. lia. }
  rewrite N. unfold counted. rewrite length_app. simpl.
  replace (length ids + 1) with (S (length ids)) by lia.
  split; [|reflexivity].
  rewrite seq_S. simpl. now rewrite <- E.
Qed.

Lemma append_results_counted clock fragments : forall d url_id,
  counted (map results_id (results d)) (results_seq d) ->
  counted (map results_id (results (append_results clock d url_id
                                      fragments)))
          (results_seq (append_results clock d url_id fragments)).
Proof.
  induction fragments as [|f rest IH]; intros d url_id C; [exact C|].
  unfold append_results. simpl fold_left. apply IH.
  unfold insert_result. simpl. rewrite map_app. simpl.
  now apply counted_next.
Qed.

(** ** Properties every block keeps *)

(** A property of the database that every complete block keeps is kept by
    the loop, however it ends. *)
Lemma scrape_loop_db_invariant clock w (P : Database -> Prop) :
  (forall d url url_id fragments,
     P d -> select_id_fetchone d url = Some url_id ->
     P (append_results clock d url_id fragments)) ->
  forall items i st,
    P (db st) -> P (db (fst (scrape_loop clock w i items st))).
Proof.
  intros Step. induction items as [|item rest IH]; intros i st H.
  - exact H.
  - cbn [scrape_loop].
    destruct (scrape_item_cases clock w i item st)
      as [(url_id & Hid & E) | (e & shown & E)]; rewrite E.
    + apply IH. simpl.
      destruct (job_id_found _ _ _ Hid) as (key & _ & Hs).
      now apply Step with key.
    + exact H.
Qed.

Lemma perform_all_invariant clock (P : App -> Prop) :
  (forall a st, P st -> P (perform clock a st)) ->
  forall actions st, P st -> P (perform_all clock actions st).
Proof.
  intros Step. induction actions as [|a rest IH]; intros st H; [exact H|].
  change (perform_all clock (a :: rest) st)
    with (perform_all clock rest (perform clock a st)).
  apply IH. now apply Step.
Qed.

Lemma perform_add_cases clock fault url selector st :
  db (perform clock (ClickAdd fault url selector) st)
  = insert_url (db st) url selector
  \/ db (perform clock (ClickAdd fault url selector) st) = db st.
Proof.
  simpl.
  destruct (add_cases fault url selector st)
    as [(_ & _ & _ & _ & D & _) | (_ & S)].
  - left. exact D.
  - right. now rewrite S.
Qed.

(** X1.  Started on a fresh database, whatever buttons are pressed
    afterwards and whatever fails, the ids of the [urls] rows are 1, 2,
    3, ... in table order, without gap or repetition, and the table's
    sequence entry is the number of rows. *)
Theorem X1_url_ids_count_up (clock : Clock) (actions : list Action) :
  let d := db (perform_all clock actions (init None)) in
  map urls_id (urls d) = seq 1 (length (urls d))
  /\ urls_seq d = length (urls d).
Proof.
  cbv zeta.
  pose (P := fun st : App =>
               counted (map urls_id (urls (db st))) (urls_seq (db st))).
  assert (H : P (perform_all clock actions (init None))).
  { apply perform_all_invariant; [|split; reflexivity].
    intros [fault url selector|w] st C; unfold P in *.
    - destruct (perform_add_cases clock fault url selector st) as [-> | ->];
        [|exact C].
      unfold insert_url. simpl. rewrite map_app. simpl.
      now apply counted_next.
    - unfold perform, run_threads. simpl.
      destruct (scrape_thread_frame clock w st) as [(U & Q & _) _].
      now rewrite U, Q. }
  destruct H as [E Q]. rewrite length_map in E, Q. now split.
Qed.

(** X2.  Started on a fresh database, whatever buttons are pressed
    afterwards and whatever fails, the ids of the [results] rows are 1,
    2, 3, ... in table order: a block that raised consumed no id, because
    its inserts were dropped together with the sequence update. *)
Theorem X2_result_ids_count_up (clock : Clock) (actions : list Action) :
  let d := db (perform_all clock actions (init None)) in
  map results_id (results d) = seq 1 (length (results d))
  /\ results_seq d = length (results d).
Proof.
  cbv zeta.
  pose (P := fun st : App =>
               counted (map results_id (results (db st)))
                       (results_seq (db st))).
  assert (H : P (perform_all clock actions (init None))).
  { apply perform_all_invariant; [|split; reflexivity].
    intros [fault url selector|w] st C; unfold P in *.
    - destruct (perform_add_cases clock fault url selector st) as [-> | ->];
        exact C.
    - unfold perform, run_threads, start_scraping, scrape_thread.
      simpl fold_left.
      apply (@scrape_loop_db_invariant clock w
               (fun d => counted (map results_id (results d))
                                 (results_seq d))).
      + intros d url url_id fragments Cd _.
        now apply append_results_counted.
      + exact C. }
  destruct H as [E Q]. rewrite length_map in E, Q. now split.
Qed.

Lemma select_id_fetchone_in d url url_id :
  select_id_fetchone d url = Some url_id ->
  exists r, In r (urls d) /\ urls_id r = url_id /\ urls_url r = url.
Proof.
  rewrite select_id_fetchone_find.
  destruct (find _ (urls d)) as [r|] eqn:F; [|discriminate].
  intros E. injection E as <-.
  apply find_some in F. destruct F as [Hin Heq].
  exists r. split; [exact Hin|]. split; [reflexivity|].
  now apply String.eqb_eq.
Qed.

Lemma append_results_referential clock d url url_id fragments :
  referential d ->
  select_id_fetchone d url = Some url_id ->
  referential (append_results clock d url_id fragments).
Proof.
  intros R Hid.
  destruct (append_results_spec clock fragments d url_id)
    as (U & _ & rows & E & M & _).
  intros r Hr. rewrite U. rewrite E in Hr.
  apply in_app_or in Hr. destruct Hr as [Hr|Hr]; [now apply R|].
  assert (Hrec : In (record_of r) (map (pair url_id) fragments)).
  { rewrite <- M. now apply in_map. }
  apply in_map_iff in Hrec. destruct Hrec as (f & Ef & _).
  injection Ef as Eid _. rewrite <- Eid.
  destruct (select_id_fetchone_in d url Hid) as (row & Hin & <- & _).
  now apply in_map.
Qed.

(** X3.  If every stored result points at a stored job when the program
    starts, this stays so whatever buttons are pressed and whatever
    fails: no run stores a row whose [url_id] is not the id of a row of
    [urls]. *)
Theorem X3_results_point_at_stored_jobs
  (clock : Clock) (file : option Database) (actions : list Action) :
  referential (create_database file) ->
  referential (db (perform_all clock actions (init file))).
Proof.
  intros R0.
  apply (@perform_all_invariant clock (fun st => referential (db st)));
    [|exact R0].
  intros [fault url selector|w] st R.
  - destruct (perform_add_cases clock fault url selector st) as [-> | ->];
      [|exact R].
    intros r Hr. unfold insert_url in *. simpl in *.
    rewrite map_app. apply in_or_app. left. now apply R.
  - unfold perform, run_threads, start_scraping, scrape_thread.
    simpl fold_left.
    apply (@scrape_loop_db_invariant clock w referential).
    + intros d url url_id fragments Rd Hid.
      now apply append_results_referential with url.
    + exact R.
Qed.

(** X3 on a fresh database and a run over two jobs. *)
Lemma X3_witness :
  referential (create_database None)
  /\ referential
       (db (perform_all Example.ticking
              [ClickAdd false Example.page_url ".item";
               ClickAdd false Example.tea_url ".price";
               ClickStart Example.world]
              (init None))).
Proof.
  assert (R0 : referential (create_database None)) by (intros r []).
  split; [exact R0|].
  apply (@X3_results_point_at_stored_jobs Example.ticking None _ R0).
Defined.

(** ** Which jobs a run has stored *)

Lemma scrape_loop_whole_jobs clock w items : forall i st,
  exists n rows,
    n <= length items
    /\ results (db (fst (scrape_loop clock w i items st)))
       = results (db st) ++ rows
    /\ urls (db (fst (scrape_loop clock w i items st))) = urls (db st)
    /\ map record_of rows = expected_records (db st) w i (firstn n items)
    /\ resolvable w (db st) (firstn n items)
    /\ (snd (scrape_loop clock w i items st) = Finished ->
        n = length items).
Proof.
  induction items as [|[url selector] rest IH]; intros i st.
  - exists 0, []. simpl. rewrite app_nil_r.
    repeat split; auto. intros u s [].
  - cbn [scrape_loop].
    destruct (scrape_item_cases clock w i (url, selector) st)
      as [(url_id & Hid & E) | (e & shown & E)]; rewrite E.
    + destruct (append_results_spec clock
                  (item_fragments w i (url, selector)) (db st) url_id)
        as (U & _ & rows1 & R1 & M1 & _).
      set (st1 := with_db_text st _ _) in *.
      destruct (IH (S i) st1) as (n & rows2 & Ln & R2 & U2 & M2 & RS2 & F2).
      exists (S n), (rows1 ++ rows2).
      split; [simpl; lia|]. split.
      { rewrite R2. subst st1. simpl. now rewrite R1, app_assoc. }
      split.
      { rewrite U2. subst st1. simpl. exact U. }
      split.
      { cbn [firstn expected_records]. rewrite Hid, map_app, M1, M2.
        f_equal. subst st1. simpl. now apply expected_records_urls. }
      split.
      { intros u s [Eq|Hin].
        - injection Eq as <- <-. now exists url_id.
        - apply resolvable_urls with (d := db st1) (d' := db st) in RS2.
          + now apply (RS2 u s).
          + subst st1. simpl. now rewrite U. }
      intros Hfin. simpl. f_equal. now apply F2.
    + simpl. exists 0, []. rewrite app_nil_r. simpl.
      repeat split; auto; try lia.
      * intros u s [].
      * discriminate.
Qed.

(** X4.  A run stores whole jobs only, whatever goes wrong: the rows it
    adds are, for some [n], the complete fragment lists of the first [n]
    entries of the list as the worker read them back, each under the id
    its lookup returned, in list order and one row per fragment; an entry
    is never stored in part, and no entry is stored once an earlier one
    was not.  A run that finishes has stored all entries. *)
Theorem X4_a_run_stores_whole_jobs_in_order
  (clock : Clock) (w : World) (st : App) :
  exists n rows,
    n <= length (url_list st)
    /\ results (db (fst (scrape_thread clock w st)))
       = results (db st) ++ rows
    /\ map record_of rows
       = expected_records (db st) w 0 (firstn n (url_list st))
    /\ map results_result rows
       = all_fragments w 0 (firstn n (url_list st))
    /\ (snd (scrape_thread clock w st) = Finished ->
        n = length (url_list st)).
Proof.
  destruct (scrape_loop_whole_jobs clock w (url_list st) 0
              (results_text_clear st))
    as (n & rows & Ln & R & _ & M & RS & F).
  exists n, rows. unfold scrape_thread. simpl url_list.
  split; [exact Ln|]. split; [exact R|]. split; [exact M|].
  split; [|exact F].
  rewrite <- (@expected_records_fragments (db st) w _ RS 0).
  simpl db in M. rewrite <- M, map_map. reflexivity.
Qed.

Lemma select_id_fetchone_first_occurrence d : forall n r,
  nth_error (urls d) n = Some r ->
  (forall k r', k < n -> nth_error (urls d) k = Some r' ->
                urls_url r' <> urls_url r) ->
  select_id_fetchone d (urls_url r) = Some (urls_id r).
Proof.
  unfold select_id_fetchone.
  induction (urls d) as [|r0 rows IH]; intros n r Hn First.
  - destruct n; discriminate.
  - destruct n as [|n]; simpl in *.
    + injection Hn as ->. now rewrite String.eqb_refl.
    + assert (Hne : urls_url r0 <> urls_url r)
        by (apply (First 0 r0); [lia | reflexivity]).
      apply String.eqb_neq in Hne. rewrite Hne.
      apply (IH n r Hn).
      intros k r' Hk Hr'. apply (First (S k) r'); [lia | exact Hr'].
Qed.

(** X5.  In a state where the list mirrors the table and every entry's
    lookup finds a row, and in a run whose database blocks do not raise,
    a job whose url is read back as stored and is not the url of an
    earlier row is looked up under its own id, and every fragment it
    produces is stored in a row that carries that id. *)
Theorem X5_first_job_of_a_url_keeps_its_own_id
  (clock : Clock) (w : World) (st : App) (n : nat) (r : UrlRow) :
  mirrors st ->
  resolvable w (db st) (url_list st) ->
  no_fault_in w 0 (length (url_list st)) ->
  nth_error (urls (db st)) n = Some r ->
  reads_as_stored w (urls_url r) ->
  (forall k r', k < n -> nth_error (urls (db st)) k = Some r' ->
                urls_url r' <> urls_url r) ->
  nth_error (url_list st) n = Some (urls_url r, urls_selector r)
  /\ job_id w (db st) (urls_url r) = inr (Some (urls_id r))
  /\ exists st' rows,
       scrape_thread clock w st = (st', Finished)
       /\ results (db st') = results (db st) ++ rows
       /\ forall f,
            In f (item_fragments w n (urls_url r, urls_selector r)) ->
            In (urls_id r, f) (map record_of rows).
Proof.
  intros M RS NF Hn Ra First.
  assert (Hl : nth_error (url_list st) n
               = Some (urls_url r, urls_selector r)).
  { unfold mirrors, select_url_selector in M.
    rewrite M, nth_error_map, Hn. reflexivity. }
  assert (Hid : job_id w (db st) (urls_url r) = inr (Some (urls_id r))).
  { rewrite (job_id_as_stored (db st) Ra). f_equal.
    exact (@select_id_fetchone_first_occurrence (db st) n r Hn First). }
  split; [exact Hl|]. split; [exact Hid|].
  destruct (@scrape_thread_finishes clock w st NF RS)
    as (st' & rows & L & _ & [R _] & E & _).
  exists st', rows. split; [exact L|]. split; [exact R|].
  intros f Hf. rewrite E.
  apply expected_records_nth
    with (n := n) (item := (urls_url r, urls_selector r));
    [exact Hl | exact Hid | exact Hf].
Qed.

(** X5 on two jobs with different urls: the second keeps id 2. *)
Lemma X5_witness :
  let st := fst (add false Example.tea_url ".price"
                   (fst (add false Example.page_url ".item" (init None)))) in
  mirrors st
  /\ resolvable Example.world (db st) (url_list st)
  /\ job_id Example.world (db st) Example.tea_url = inr (Some 2)
  /\ map record_of
       (results (db (fst (scrape_thread Example.ticking Example.world st))))
     = [(1, "A"); (1, "B"); (2, "10")].
Proof.
  intros st.
  assert (M : mirrors st) by reflexivity.
  assert (RS : resolvable Example.world (db st) (url_list st)).
  { intros url selector [E|[E|[]]]; injection E as <- <-;
      [exists 1 | exists 2]; reflexivity. }
  split; [exact M|]. split; [exact RS|].
  destruct (@X5_first_job_of_a_url_keeps_its_own_id
              Example.ticking Example.world st 1
              (mkUrlRow 2 Example.tea_url ".price") M RS)
    as (_ & Hid & _).
  - intros k Hk. reflexivity.
  - reflexivity.
  - reflexivity.
  - intros k r' Hk Hr'. assert (k = 0) by lia. subst k.
    injection Hr' as <-. discriminate.
  - split; [exact Hid | reflexivity].
Defined.

(** ** What each button leaves alone *)

(** X6.  A run, however it ends, leaves the jobs alone: the [urls] table,
    its sequence entry, the list and the two entries are as before.  A
    registration, accepted or not, leaves the results alone: the
    [results] table, its sequence entry and the results text are as
    before. *)
Theorem X6_each_button_keeps_the_other_table
  (clock : Clock) (w : World) (fault : bool) (url selector : string)
  (st : App) :
  same_registry st (fst (scrape_thread clock w st))
  /\ results (db (fst (add fault url selector st))) = results (db st)
  /\ results_seq (db (fst (add fault url selector st)))
     = results_seq (db st)
  /\ results_text (fst (add fault url selector st)) = results_text st.
Proof.
  split; [apply scrape_thread_frame|].
  destruct (add_cases fault url selector st)
    as [(O & _ & _ & Ef & D & _) | (_ & S)].
  - rewrite D. subst fault. unfold add, add_url in *. simpl in *.
    destruct (Py.truthy url && Py.truthy selector); [|discriminate].
    repeat split.
  - rewrite S. repeat split.
Qed.

(** ** Fresh ids *)

(** X7.  An accepted registration appends one row, after the rows
    already stored and without changing them, under an id that is larger
    than every id in the table and larger than the table's sequence
    entry, so an id is not given twice even after the row that had it is
    gone. *)
Theorem X7_registration_takes_a_fresh_id
  (url selector : string) (st : App) :
  url <> EmptyString -> selector <> EmptyString ->
  exists id,
    urls (db (fst (add false url selector st)))
    = urls (db st) ++ [mkUrlRow id url selector]
    /\ urls_seq (db (fst (add false url selector st))) = id
    /\ urls_seq (db st) < id
    /\ (forall r, In r (urls (db st)) -> urls_id r < id).
Proof.
  intros Hu Hs.
  destruct url as [|c u]; [congruence|].
  destruct selector as [|c' s]; [congruence|].
  unfold add, add_url. simpl.
  eexists. split; [reflexivity|]. split; [reflexivity|]. split.
  - unfold next_rowid. lia.
  - intros r Hr. apply next_rowid_above. now apply in_map.
Qed.

(** X7 on a table whose row 2 is gone and whose sequence entry is 2. *)
Lemma X7_witness :
  "http://new.test/" <> EmptyString /\ ".y" <> EmptyString
  /\ exists id,
       urls (db (fst (add false "http://new.test/" ".y" Orphan.st)))
       = urls (db Orphan.st) ++ [mkUrlRow id "http://new.test/" ".y"]
       /\ urls_seq (db (fst (add false "http://new.test/" ".y" Orphan.st)))
          = id
       /\ 2 < id
       /\ (forall r, In r (urls (db Orphan.st)) -> urls_id r < id).
Proof.
  assert (Hu : "http://new.test/" <> EmptyString) by discriminate.
  assert (Hs : ".y" <> EmptyString) by discriminate.
  split; [exact Hu|]. split; [exact Hs|].
  exact (@X7_registration_takes_a_fresh_id
           "http://new.test/" ".y" Orphan.st Hu Hs).
Defined.

(** ** Whitespace *)

Lemma lstrip_all_space (s : string) :
  Py.all_space s = true -> Py.lstrip s = EmptyString.
Proof.
  induction s as [|c s IH]; simpl; [reflexivity|].
  destruct (Py.isspace c); simpl; [exact IH | discriminate].
Qed.

(** X8.  A matched element whose text is empty or made of whitespace
    only still gives a fragment, the empty string, at the element's
    position. *)
Theorem X8_blank_element_gives_empty_fragment
  (w : World) (i : nat) (url selector : string)
  (elements : list PageElement) (k : nat) (e : PageElement) :
  matched w i url selector elements ->
  nth_error elements k = Some e ->
  Py.all_space (text e) = true ->
  nth_error (scrape_url w i url selector) k = Some EmptyString.
Proof.
  intros M Hk Hs.
  rewrite (scrape_url_matched M), nth_error_map, Hk. simpl.
  unfold Py.strip. now rewrite (lstrip_all_space _ Hs).
Qed.

(** X8 on a page whose match holds spaces around an empty tag. *)
Lemma X8_witness :
  matched Blank.world 0 "http://blank.test/" ".item" [Blank.element]
  /\ Py.all_space (text Blank.element) = true
  /\ nth_error (scrape_url Blank.world 0 "http://blank.test/" ".item") 0
     = Some EmptyString.
Proof.
  assert (M : matched Blank.world 0 "http://blank.test/" ".item"
                      [Blank.element]).
  { exists "page", (Tag "[document]" [] [Blank.element]).
    split; [reflexivity|]. split; reflexivity. }
  assert (Hs : Py.all_space (text Blank.element) = true) by reflexivity.
  split; [exact M|]. split; [exact Hs|].
  exact (@X8_blank_element_gives_empty_fragment
           Blank.world 0 "http://blank.test/" ".item"
           [Blank.element] 0 Blank.element M eq_refl Hs).
Defined.

(** ** Lookup after registration *)

(** X10.  After a row for [(url, selector)] is inserted, the lookup of
    any url [u] that already had a row still returns the id it returned
    before, also when [u] is the new row's url; a url without a row is
    found only if it is the new row's url, under the new id. *)
Theorem X10_lookup_after_insert
  (d : Database) (url selector u : string) :
  select_id_fetchone (insert_url d url selector) u
  = match select_id_fetchone d u with
    | Some id => Some id
    | None =>
        if String.eqb url u
        then Some (next_rowid (map urls_id (urls d)) (urls_seq d))
        else None
    end.
Proof.
  unfold select_id_fetchone, insert_url. simpl. rewrite filter_app.
  destruct (filter _ (urls d)) as [|r rows]; simpl; [|reflexivity].
  destruct (String.eqb url u); reflexivity.
Qed.

(** ** What is shown and what is stored *)

Lemma find_by_id (rows : list UrlRow) (r : UrlRow) :
  NoDup (map urls_id rows) -> In r rows ->
  find (fun r' => urls_id r' =? urls_id r) rows = Some r.
Proof.
  induction rows as [|r0 rest IH]; intros ND Hin; [contradiction|].
  simpl in *. inversion ND as [|? ? Hnot ND']; subst.
  destruct Hin as [->|Hin].
  - now rewrite Nat.eqb_refl.
  - destruct (Nat.eqb_spec (urls_id r0) (urls_id r)) as [E|_].
    + exfalso. apply Hnot. rewrite E. now apply in_map.
    + now apply IH.
Qed.

Lemma url_of_id_lookup d url id :
  NoDup (map urls_id (urls d)) ->
  select_id_fetchone d url = Some id ->
  url_of_id d id = Some url.
Proof.
  intros ND Hid.
  destruct (@select_id_fetchone_in d url id Hid) as (r & Hin & <- & <-).
  unfold url_of_id. now rewrite (@find_by_id (urls d) r ND Hin).
Qed.

Lemma show_records_app d records1 records2 :
  show_records d (records1 ++ records2)
  = (show_records d records1 ++ show_records d records2)%string.
Proof.
  induction records1 as [|[id result] rest IH]; simpl; [reflexivity|].
  now rewrite IH, string_app_assoc.
Qed.

Lemma show_records_of_job d id url fragments :
  url_of_id d id = Some url ->
  show_records d (map (pair id) fragments) = show_results url fragments.
Proof.
  intros E. induction fragments as [|f rest IH]; [reflexivity|].
  cbn [map show_records show_results]. rewrite E, IH.
  unfold result_entry, newline. now rewrite !string_app_assoc.
Qed.

Lemma show_records_expected d w items :
  NoDup (map urls_id (urls d)) ->
  resolvable w d items ->
  forall i, show_records d (expected_records d w i items)
            = shown_text w i items.
Proof.
  intros ND. induction items as [|[url selector] rest IH]; intros RS i.
  - reflexivity.
  - cbn [expected_records shown_text fst].
    rewrite show_records_app, IH.
    2:{ intros u s Hin. apply (RS u s). now right. }
    destruct (RS url selector (or_introl eq_refl)) as [id Hid].
    rewrite Hid.
    destruct (job_id_found _ _ _ Hid) as (key & Hb & Hs).
    apply sqlite_bind_str in Hb.
    rewrite (@show_records_of_job d id key _
               (@url_of_id_lookup d key id ND Hs)).
    now rewrite Hb.
Qed.

(** X11.  In a state where every list entry's lookup finds a row and the
    ids of the jobs are pairwise distinct, a run whose database blocks
    do not raise leaves in the results text exactly what it stored: for
    each new row, in row order, the line [URL: ] with the url of the job
    the row points at, the line [Resultado: ] with the row's result, and
    an empty line; nothing of an earlier run is left in the text. *)
Theorem X11_results_text_shows_the_stored_rows
  (clock : Clock) (w : World) (st : App) :
  resolvable w (db st) (url_list st) ->
  NoDup (map urls_id (urls (db st))) ->
  no_fault_in w 0 (length (url_list st)) ->
  exists st' rows,
    scrape_thread clock w st = (st', Finished)
    /\ results (db st') = results (db st) ++ rows
    /\ results_text st' = show_records (db st') (map record_of rows).
Proof.
  intros RS ND NF.
  destruct (@scrape_thread_finishes clock w st NF RS)
    as (st' & rows & L & (U & _) & [R _] & E & T).
  exists st', rows. split; [exact L|]. split; [exact R|].
  rewrite T, E.
  rewrite <- (@show_records_expected (db st) w (url_list st) ND RS 0).
  clear - U. generalize (expected_records (db st) w 0 (url_list st)).
  intros records.
  induction records as [|[id result] rest IH]; simpl; [reflexivity|].
  unfold url_of_id. now rewrite U, IH.
Qed.

(** X11 on two jobs and a text left by an earlier run. *)
Lemma X11_witness :
  let st := fst (scrape_thread Example.ticking Example.world
                   SameUrl.tea_jobs) in
  resolvable Example.world (db st) (url_list st)
  /\ NoDup (map urls_id (urls (db st)))
  /\ no_fault_in Example.world 0 (length (url_list st))
  /\ exists st' rows,
       scrape_thread Example.ticking Example.world st = (st', Finished)
       /\ results (db st') = results (db st) ++ rows
       /\ results_text st' = show_records (db st') (map record_of rows).
Proof.
  intros st.
  assert (RS : resolvable Example.world (db st) (url_list st)).
  { intros url selector [E|[E|[]]]; injection E as <- <-;
      exists 1; reflexivity. }
  assert (ND : NoDup (map urls_id (urls (db st)))).
  { simpl. repeat constructor; simpl; intuition discriminate. }
  assert (NF : no_fault_in Example.world 0 (length (url_list st)))
    by (intros k Hk; reflexivity).
  split; [exact RS|]. split; [exact ND|]. split; [exact NF|].
  exact (@X11_results_text_shows_the_stored_rows
           Example.ticking Example.world st RS ND NF).
Defined.

(** ** Registrations that did not go through *)

(** X12.  A registration that is refused, or whose database block raised,
    leaves no trace beyond the text in the two entries: the database, the
    list and the results text are as before, and the next registration
    gives exactly what it would have given without it. *)
Theorem X12_failed_registration_leaves_no_trace
  (fault : bool) (url selector : string) (st : App) :
  snd (add fault url selector st) <> Added ->
  db (fst (add fault url selector st)) = db st
  /\ url_list (fst (add fault url selector st)) = url_list st
  /\ results_text (fst (add fault url selector st)) = results_text st
  /\ forall fault' url' selector',
       add fault' url' selector' (fst (add fault url selector st))
       = add fault' url' selector' st.
Proof.
  intros O.
  destruct (add_cases fault url selector st) as [(O' & _) | (_ & S)];
    [contradiction|].
  rewrite S. repeat split.
Qed.

(** X12 on a registration whose database block raised. *)
Lemma X12_witness :
  snd (add true Example.page_url ".item" (init None)) <> Added
  /\ add false Example.page_url ".item"
         (fst (add true Example.page_url ".item" (init None)))
     = add false Example.page_url ".item" (init None).
Proof.
  assert (O : snd (add true Example.page_url ".item" (init None)) <> Added)
    by discriminate.
  split; [exact O|].
  apply (@X12_failed_registration_leaves_no_trace
           true Example.page_url ".item" (init None) O).
Defined.

(** ** Runs in the states the program reaches *)

Lemma scrape_loop_outcome clock w items : forall i st,
  resolvable w (db st) items ->
  snd (scrape_loop clock w i items st) = Finished
  \/ snd (scrape_loop clock w i items st) = Uncaught OperationalError.
Proof.
  induction items as [|[url selector] rest IH]; intros i st RS.
  - left. reflexivity.
  - cbn [scrape_loop].
    destruct (RS url selector (or_introl eq_refl)) as [url_id Hid].
    destruct (db_fault w i) as [f|] eqn:Ef.
    + destruct (raises_after (db_fault w i)
                  (length (item_fragments w i (url, selector))))
        as [m|] eqn:Hf.
      * rewrite (@scrape_item_raised clock w i (url, selector) st url_id m
                   Hid Hf).
        now right.
      * rewrite (@scrape_item_finished clock w i (url, selector) st url_id
                   Hid Hf).
        apply IH.
        destruct (append_results_spec clock
                    (item_fragments w i (url, selector)) (db st) url_id)
          as (U & _).
        apply resolvable_urls with (d := db st); [exact U|].
        intros u s Hin. apply (RS u s). now right.
    + assert (Hf : raises_after (db_fault w i)
                     (length (item_fragments w i (url, selector))) = None)
        by now rewrite Ef.
      rewrite (@scrape_item_finished clock w i (url, selector) st url_id
                 Hid Hf).
      apply IH.
      destruct (append_results_spec clock
                  (item_fragments w i (url, selector)) (db st) url_id)
        as (U & _).
      apply resolvable_urls with (d := db st); [exact U|].
      intros u s Hin. apply (RS u s). now right.
Qed.

(** X13.  Started on any database file, after any sequence of button
    presses, if no url in the list is text that [int()] accepts, every
    entry of the list has its row and is looked up under its own text, so
    a run finishes or ends on a database exception: the worker never ends
    on the [TypeError] of indexing a missing row. *)
Theorem X13_reached_states_never_miss_a_row
  (clock : Clock) (file : option Database) (actions : list Action)
  (w : World) :
  let st := perform_all clock actions (init file) in
  (forall url selector,
     In (url, selector) (url_list st) -> reads_as_stored w url) ->
  resolvable w (db st) (url_list st)
  /\ (snd (scrape_thread clock w st) = Finished
      \/ snd (scrape_thread clock w st) = Uncaught OperationalError)
  /\ snd (scrape_thread clock w st) <> Uncaught TypeError.
Proof.
  cbv zeta. intros RA.
  destruct (perform_all_registry clock actions (init_mirrors file))
    as [M _].
  pose proof (@mirrors_resolvable w _ M RA) as RS.
  assert (H := @scrape_loop_outcome clock w
                 (url_list (perform_all clock actions (init file))) 0
                 (results_text_clear
                    (perform_all clock actions (init file))) RS).
  split; [exact RS|]. split; [exact H|].
  unfold scrape_thread. simpl url_list.
  destruct H as [-> | ->]; discriminate.
Qed.

(** X13 after two registrations and a run. *)
Lemma X13_witness :
  let st := perform_all Example.ticking
              [ClickAdd false Example.page_url ".item";
               ClickAdd false Example.tea_url ".price";
               ClickStart Example.world]
              (init None) in
  (forall url selector,
     In (url, selector) (url_list st) ->
     reads_as_stored Example.world url)
  /\ snd (scrape_thread Example.ticking Example.world st)
     <> Uncaught TypeError.
Proof.
  intros st.
  assert (RA : forall url selector,
             In (url, selector) (url_list st) ->
             reads_as_stored Example.world url).
  { intros url selector [E|[E|[]]]; injection E as <- _; reflexivity. }
  split; [exact RA|].
  apply (@X13_reached_states_never_miss_a_row
           Example.ticking None
           [ClickAdd false Example.page_url ".item";
            ClickAdd false Example.tea_url ".price";
            ClickStart Example.world]
           Example.world RA).
Defined.

(** ** Urls made of digits *)

(** X14.  An entry whose url is text that [int()] accepts is looked up
    under the decimal text of that integer, not under its own text.  In a
    run that reaches the entry (no database block raises up to it and the
    entries before it are found): if the integer does not fit 64 bits the
    worker ends on the [OverflowError] of binding it; if it fits and no
    row has that decimal text as url, the worker ends on the [TypeError]
    of indexing the missing row, also when the entry's own row is in the
    table.  In both cases nothing of that entry or of a later one is
    stored or shown. *)
Theorem X14_digit_urls_are_looked_up_as_integers
  (clock : Clock) (w : World) (st : App) (n : nat)
  (url selector : string) (z : Z) :
  nth_error (url_list st) n = Some (url, selector) ->
  Py.int (int_max_str_digits w) url = Some z ->
  no_fault_in w 0 (S n) ->
  resolvable w (db st) (firstn n (url_list st)) ->
  let before :=
    fst (scrape_loop clock w 0 (firstn n (url_list st))
           (results_text_clear st)) in
  (((- 2 ^ 63 <=? z) && (z <? 2 ^ 63))%Z = false ->
   scrape_thread clock w st = (before, Uncaught OverflowError))
  /\ (((- 2 ^ 63 <=? z) && (z <? 2 ^ 63))%Z = true ->
      (forall r, In r (urls (db st)) -> urls_url r <> Py.str (Py.Int z)) ->
      scrape_thread clock w st = (before, Uncaught TypeError)).
Proof.
  intros Hn Hz NF RS before.
  destruct (@scrape_thread_reaches clock w st n (url, selector) Hn)
    as (st' & L & (U & _) & _ & E).
  { intros k Hk. apply NF. lia. }
  { exact RS. }
  assert (Hc : db_fault w n <> Some FaultConnect).
  { rewrite NF by lia. discriminate. }
  assert (Hconv : convert_stringval w url = Py.Int z).
  { unfold convert_stringval. now rewrite Hz. }
  subst before. rewrite L. simpl fst. split.
  - intros Range.
    assert (Hid : job_id w (db st') (fst (url, selector))
                  = inl OverflowError).
    { unfold job_id. simpl fst. rewrite Hconv.
      cbn [sqlite_bind]. now rewrite Range. }
    now rewrite (@scrape_item_refused clock w n (url, selector) st'
                   OverflowError Hc Hid) in E.
  - intros Range Hno.
    assert (Hid : job_id w (db st') (fst (url, selector)) = inr None).
    { unfold job_id. simpl fst. rewrite Hconv.
      cbn [sqlite_bind]. rewrite Range. unfold Py.bind, Py.ret. f_equal.
      rewrite select_id_fetchone_find, U.
      destruct (find _ (urls (db st))) as [r|] eqn:F; [|reflexivity].
      apply find_some in F. destruct F as [Hin Heq].
      apply String.eqb_eq in Heq. exfalso. now apply (Hno r). }
    now rewrite (@scrape_item_no_row clock w n (url, selector) st' Hc Hid)
      in E.
Qed.

(** X14 on the job registered under [007]. *)
Lemma X14_witness :
  nth_error (url_list Numeric.st) 0 = Some ("007", ".item")
  /\ Py.int (int_max_str_digits Example.world) "007" = Some 7%Z
  /\ scrape_thread Example.ticking Example.world Numeric.st
     = (results_text_clear Numeric.st, Uncaught TypeError).
Proof.
  split; [reflexivity|]. split; [reflexivity|].
  apply (@X14_digit_urls_are_looked_up_as_integers
           Example.ticking Example.world Numeric.st 0 "007" ".item" 7%Z).
  - reflexivity.
  - reflexivity.
  - intros k Hk. reflexivity.
  - intros url selector [].
  - reflexivity.
  - intros r [<-|[]]. discriminate.
Defined.
